(** * chrome-devtools-mcp: extension utilities and extension tools

    A shallow embedding of [src/utils/extension.ts] and
    [src/tools/extension.ts], and the properties checked against them.

    Definitions:
    - [JS]: the string and array built-ins the sources call.
    - [Url], [IsoDate]: reference models of [new URL(..)] on
      [chrome-extension://] inputs and of [Date] on ISO timestamps.  The
      embedding takes these runtime functions as parameters; the models
      instantiate them in the examples.
    - [ExtensionUtils]: [extractExtensionId], [getExtensionContextType],
      [isSameExtension].
    - [Logs]: the in-page script of [get_extension_logs].
    - [Tools]: the two tool handlers as programs over the calls they make
      on the context and the page, and how such a program runs.
    - [Session]: the Session Context over a scripted browser.
    - [Mutex]: the dispatcher's execution mutex.

    Properties: [ExtensionUtilsFacts], [LogsFacts], [ToolsFacts],
    [SessionFacts], [MutexFacts]; then [ExtensionUrlFacts],
    [LogsScriptFacts], [GroupingFacts], [ReportFacts], [HandlerFacts]. *)

From Stdlib Require Import String Ascii List Bool Arith ZArith QArith Lia.
From Stdlib Require Import Sorting.Sorted Sorting.Permutation DecimalString.
Import ListNotations.

Close Scope Q_scope.
Open Scope nat_scope.
Open Scope list_scope.
Open Scope string_scope.

(* ===================================================================== *)
(** ** Outcomes of JavaScript calls *)
(* ===================================================================== *)

(** A call either returns a value or throws.  What is thrown is kept as
    the text that [error instanceof Error ? error.message : String(error)]
    yields for it, which is all the sources ever read of a caught value. *)
Inductive result (A : Type) : Type :=
| Ok (a : A)
| Throw (message : string).
Arguments Ok {A} a.
Arguments Throw {A} message.

Definition is_ok {A} (r : result A) : bool :=
  match r with Ok _ => true | Throw _ => false end.

(* ===================================================================== *)
(** ** JavaScript built-ins *)
(* ===================================================================== *)

Module JS.

(** [s.startsWith(p)] *)
Definition startsWith (s p : string) : bool := String.prefix p s.

(** [s.includes(needle)]: [needle] occurs at some position of [s]. *)
Fixpoint includes (s needle : string) : bool :=
  String.prefix needle s ||
  match s with
  | EmptyString => false
  | String _ s' => includes s' needle
  end.

Definition is_upper (c : ascii) : bool :=
  let n := nat_of_ascii c in ((65 <=? n) && (n <=? 90))%nat.

Definition is_lower (c : ascii) : bool :=
  let n := nat_of_ascii c in ((97 <=? n) && (n <=? 122))%nat.

Definition lower_char (c : ascii) : ascii :=
  if is_upper c then ascii_of_nat (nat_of_ascii c + 32) else c.

Definition upper_char (c : ascii) : ascii :=
  if is_lower c then ascii_of_nat (nat_of_ascii c - 32) else c.

Fixpoint map_string (f : ascii -> ascii) (s : string) : string :=
  match s with
  | EmptyString => EmptyString
  | String c s' => String (f c) (map_string f s')
  end.

(** [s.toLowerCase()] and [s.toUpperCase()], exact on ASCII text (bytes
    above 127 are left as they are). *)
Definition toLowerCase : string -> string := map_string lower_char.
Definition toUpperCase : string -> string := map_string upper_char.

(** [s.repeat(n)] *)
Fixpoint repeat (s : string) (n : nat) : string :=
  match n with
  | O => EmptyString
  | S n' => s ++ repeat s n'
  end.

(** [s.padEnd(n)]: spaces are added up to length [n] (counted in bytes,
    exact on ASCII text). *)
Definition padEnd (s : string) (n : nat) : string :=
  s ++ repeat " " (n - String.length s).

(** [parts.join(sep)] *)
Definition join (sep : string) (parts : list string) : string :=
  String.concat sep parts.

(** [`${n}`] for a non-negative integer. *)
Definition string_of_nat (n : nat) : string :=
  NilZero.string_of_uint (Nat.to_uint n).

(** [ToIntegerOrInfinity] on a finite number: rounding towards zero. *)
Definition toInteger (x : Q) : Z := Z.quot (Qnum x) (Zpos (Qden x)).

(** [xs.slice(0, end)] for a finite number [end]: [end] is truncated to an
    integer; a negative one counts from the end of the array. *)
Definition slice0 {A} (xs : list A) (end_ : Q) : list A :=
  let e := toInteger end_ in
  let len := Z.of_nat (List.length xs) in
  let final := if (e <? 0)%Z then Z.max (len + e) 0 else Z.min e len in
  firstn (Z.to_nat final) xs.

End JS.

(* ===================================================================== *)
(** ** [new URL(..)] on chrome-extension inputs *)
(* ===================================================================== *)

(** The two components of a parsed URL that the sources read. *)
Record URL : Type := mkURL {
  hostname : string;
  pathname : string
}.

Module Url.

(** A reference model of the URL constructor of the JavaScript runtime,
    following the WHATWG basic URL parser.  The sources construct a URL
    only from a string that starts with [chrome-extension://]; the scheme
    is then not a special one and the two slashes open an authority.  On
    any other input [new_URL] answers [None], and nothing below reads it
    there.  A host written in square brackets is an IPv6 literal; its
    parser is not modelled and such a host is answered with [None] too.
    Strings are sequences of bytes (UTF-8), which is what the parser
    percent-encodes. *)

Definition code (c : ascii) : nat := nat_of_ascii c.

Definition is_c0_or_space (c : ascii) : bool := (code c <=? 32)%nat.

Definition is_tab_or_newline (c : ascii) : bool :=
  ((code c =? 9) || (code c =? 10) || (code c =? 13))%nat.

Definition is_digit (c : ascii) : bool :=
  ((48 <=? code c) && (code c <=? 57))%nat.

(** Forbidden host code points. *)
Definition is_forbidden_host (c : ascii) : bool :=
  existsb (Nat.eqb (code c))
    [0; 9; 10; 13; 32; 35; 47; 58; 60; 62; 63; 64; 91; 92; 93; 94; 124].

(** The C0 control percent-encode set: C0 controls and everything above
    the tilde. *)
Definition in_c0_control_set (c : ascii) : bool :=
  ((code c <? 32) || (126 <? code c))%nat.

(** The path percent-encode set. *)
Definition in_path_set (c : ascii) : bool :=
  in_c0_control_set c ||
  existsb (Nat.eqb (code c)) [32; 34; 35; 60; 62; 63; 94; 96; 123; 125].

Definition hex_digit (n : nat) : ascii :=
  if (n <? 10)%nat then ascii_of_nat (48 + n) else ascii_of_nat (55 + n).

Definition percent_encode (in_set : ascii -> bool) (c : ascii) : list ascii :=
  if in_set c
  then ["%"%char; hex_digit (code c / 16); hex_digit (code c mod 16)]
  else [c].

Definition percent_encode_all (in_set : ascii -> bool) (cs : list ascii)
  : list ascii :=
  flat_map (percent_encode in_set) cs.

(** Step 1 and 3 of the parser: leading and trailing C0 controls and
    spaces are removed, then every tab and newline. *)
Fixpoint strip_leading (cs : list ascii) : list ascii :=
  match cs with
  | c :: cs' => if is_c0_or_space c then strip_leading cs' else cs
  | [] => []
  end.

Definition strip_trailing (cs : list ascii) : list ascii :=
  rev (strip_leading (rev cs)).

Definition preprocess (cs : list ascii) : list ascii :=
  filter (fun c => negb (is_tab_or_newline c))
         (strip_trailing (strip_leading cs)).

(** [span_until stop cs]: the longest prefix with no stopping character,
    and the rest (which starts with a stopping character or is empty). *)
Fixpoint span_until (stop : ascii -> bool) (cs : list ascii)
  : list ascii * list ascii :=
  match cs with
  | [] => ([], [])
  | c :: cs' =>
      if stop c then ([], cs)
      else let (pre, post) := span_until stop cs' in (c :: pre, post)
  end.

Definition is_authority_end (c : ascii) : bool :=
  existsb (Nat.eqb (code c)) [47; 63; 35].

(** Authority state: what follows the last [@] is the host and port. *)
Fixpoint after_last_at (cs : list ascii) (seen : bool) (buffer : list ascii)
  : bool * list ascii :=
  match cs with
  | [] => (seen, rev buffer)
  | c :: cs' =>
      if (code c =? 64)%nat then after_last_at cs' true []
      else after_last_at cs' seen (c :: buffer)
  end.

(** Host state: the host ends at the first colon outside square brackets. *)
Fixpoint split_host_port (cs : list ascii) (inside : bool) (buffer : list ascii)
  : list ascii * option (list ascii) :=
  match cs with
  | [] => (rev buffer, None)
  | c :: cs' =>
      if ((code c =? 58) && negb inside)%nat then (rev buffer, Some cs')
      else
        let inside' :=
          if (code c =? 91)%nat then true
          else if (code c =? 93)%nat then false else inside in
        split_host_port cs' inside' (c :: buffer)
  end.

(** The host parser for a host that is not a domain (opaque host). *)
Definition parse_host (cs : list ascii) : option (list ascii) :=
  match cs with
  | c :: _ =>
      if (code c =? 91)%nat then None
      else if existsb is_forbidden_host cs then None
      else Some (percent_encode_all in_c0_control_set cs)
  | [] => Some []
  end.

(** Port state: decimal digits only, and at most 65535. *)
Fixpoint port_value (cs : list ascii) (acc : N) : option N :=
  match cs with
  | [] => Some acc
  | c :: cs' =>
      if is_digit c
      then port_value cs' (acc * 10 + N.of_nat (code c - 48))%N
      else None
  end.

Definition parse_port (cs : list ascii) : bool :=
  match port_value cs 0%N with
  | Some n => (n <=? 65535)%N
  | None => false
  end.

Definition lower_list (cs : list ascii) : list ascii := map JS.lower_char cs.

Definition is_single_dot (seg : list ascii) : bool :=
  let s := string_of_list_ascii (lower_list seg) in
  String.eqb s "." || String.eqb s "%2e".

Definition is_double_dot (seg : list ascii) : bool :=
  let s := string_of_list_ascii (lower_list seg) in
  String.eqb s ".." || String.eqb s ".%2e" ||
  String.eqb s "%2e." || String.eqb s "%2e%2e".

Definition is_segment_end (c : ascii) : bool :=
  existsb (Nat.eqb (code c)) [47; 63; 35].

(** Path state.  [path] is the list of segments so far, last one first;
    [buffer] is the current segment, last character first. *)
Fixpoint path_state (cs : list ascii) (buffer : list ascii)
  (path : list (list ascii)) : list (list ascii) :=
  let close (slash : bool) : list (list ascii) :=
    let seg := percent_encode_all in_path_set (rev buffer) in
    if is_double_dot seg then
      let shortened := tl path in
      if slash then shortened else [] :: shortened
    else if is_single_dot seg then
      if slash then path else [] :: path
    else seg :: path in
  match cs with
  | [] => rev (close false)
  | c :: cs' =>
      if (code c =? 47)%nat then path_state cs' [] (close true)
      else if is_segment_end c then rev (close false)
      else path_state cs' (c :: buffer) path
  end.

(** Path start state. *)
Definition parse_path (cs : list ascii) : list (list ascii) :=
  match cs with
  | [] => []
  | c :: cs' =>
      if (code c =? 47)%nat then path_state cs' [] []
      else if is_segment_end c then []
      else path_state cs [] []
  end.

(** The URL path serializer: every segment after a slash. *)
Definition serialize_path (path : list (list ascii)) : list ascii :=
  flat_map (fun seg => "/"%char :: seg) path.

Definition scheme_prefix : string := "chrome-extension://".

Fixpoint drop_prefix (p cs : list ascii) : option (list ascii) :=
  match p, cs with
  | [], _ => Some cs
  | a :: p', c :: cs' => if Ascii.eqb a c then drop_prefix p' cs' else None
  | _ :: _, [] => None
  end.

Definition new_URL (url : string) : option URL :=
  match drop_prefix (list_ascii_of_string scheme_prefix)
                    (preprocess (list_ascii_of_string url)) with
  | None => None
  | Some rest =>
      let (authority, tail) := span_until is_authority_end rest in
      let (at_seen, hostport) := after_last_at authority false [] in
      if at_seen && (List.length hostport =? 0)%nat then None
      else
        let (host_text, port_text) := split_host_port hostport false [] in
        let port_ok :=
          match port_text with
          | None => true
          | Some p => negb (List.length host_text =? 0)%nat && parse_port p
          end in
        if negb port_ok then None
        else
          match parse_host host_text with
          | None => None
          | Some host =>
              Some {| hostname := string_of_list_ascii host;
                      pathname := string_of_list_ascii
                                    (serialize_path (parse_path tail)) |}
          end
  end.

End Url.

(* ===================================================================== *)
(** ** Dates *)
(* ===================================================================== *)

Module IsoDate.

(** A reference model of [new Date(s).getTime()] and of [toISOString] for
    the timestamps the tool prescribes ([2025-01-01T00:00:00.000Z]): the
    full UTC form of the ECMAScript date-time string format.  Any other
    string is taken not to be a date (the runtime accepts more forms, and
    leaves the parsing of others to the implementation). *)

Definition digit (c : ascii) : option Z :=
  let n := nat_of_ascii c in
  if ((48 <=? n) && (n <=? 57))%nat then Some (Z.of_nat (n - 48)) else None.

Fixpoint number (cs : list ascii) (acc : Z) : option Z :=
  match cs with
  | [] => Some acc
  | c :: cs' =>
      match digit c with
      | Some d => number cs' (acc * 10 + d)%Z
      | None => None
      end
  end.

Definition is_leap (y : Z) : bool :=
  ((y mod 4 =? 0) && (negb (y mod 100 =? 0) || (y mod 400 =? 0)))%Z.

Definition days_in_month (y m : Z) : Z :=
  (if m =? 2 then (if is_leap y then 29 else 28)
   else if (m =? 4) || (m =? 6) || (m =? 9) || (m =? 11) then 30
   else 31)%Z.

(** Days from 1970-01-01 to the given day of the proleptic Gregorian
    calendar. *)
Definition days_from_civil (y m d : Z) : Z :=
  (let y' := if m <=? 2 then y - 1 else y in
   let era := y' / 400 in
   let yoe := y' - era * 400 in
   let mp := if 2 <? m then m - 3 else m + 9 in
   let doy := (153 * mp + 2) / 5 + d - 1 in
   let doe := yoe * 365 + yoe / 4 - yoe / 100 + doy in
   era * 146097 + doe - 719468)%Z.

Definition ms_per_day : Z := 86400000.

Definition getTime (s : string) : option Z :=
  match list_ascii_of_string s with
  | [y1; y2; y3; y4; "-"; m1; m2; "-"; d1; d2; "T";
     h1; h2; ":"; n1; n2; ":"; s1; s2; "."; f1; f2; f3; "Z"]%char =>
      match number [y1; y2; y3; y4] 0, number [m1; m2] 0, number [d1; d2] 0,
            number [h1; h2] 0, number [n1; n2] 0, number [s1; s2] 0,
            number [f1; f2; f3] 0 with
      | Some y, Some m, Some d, Some h, Some n, Some sec, Some ms =>
          if ((1 <=? m) && (m <=? 12) && (1 <=? d) && (d <=? days_in_month y m)
              && (h <=? 23) && (n <=? 59) && (sec <=? 59))%Z
          then Some (days_from_civil y m d * ms_per_day
                     + h * 3600000 + n * 60000 + sec * 1000 + ms)%Z
          else None
      | _, _, _, _, _, _, _ => None
      end
  | _ => None
  end.

(** Year, month and day of a day count from 1970-01-01. *)
Definition civil_from_days (z : Z) : Z * Z * Z :=
  (let z := z + 719468 in
   let era := z / 146097 in
   let doe := z - era * 146097 in
   let yoe := (doe - doe / 1460 + doe / 36524 - doe / 146096) / 365 in
   let doy := doe - (365 * yoe + yoe / 4 - yoe / 100) in
   let mp := (5 * doy + 2) / 153 in
   let d := doy - (153 * mp + 2) / 5 + 1 in
   let m := if mp <? 10 then mp + 3 else mp - 9 in
   let y := yoe + era * 400 in
   ((if m <=? 2 then y + 1 else y), m, d))%Z.

Definition digit_char (d : Z) : ascii := ascii_of_nat (48 + Z.to_nat d).

(** [n] written with [width] decimal digits. *)
Fixpoint digits (width : nat) (n : Z) (acc : string) : string :=
  match width with
  | O => acc
  | S w => digits w (n / 10)%Z (String (digit_char (n mod 10)%Z) acc)
  end.

Definition toISOString (ms : Z) : string :=
  let days := (ms / ms_per_day)%Z in
  let rest := (ms mod ms_per_day)%Z in
  let '(y, m, d) := civil_from_days days in
  let year :=
    if ((0 <=? y) && (y <=? 9999))%Z then digits 4 y ""
    else if (y <? 0)%Z then "-" ++ digits 6 (- y)%Z ""
    else "+" ++ digits 6 y "" in
  year ++ "-" ++ digits 2 m "" ++ "-" ++ digits 2 d "" ++ "T" ++
  digits 2 (rest / 3600000)%Z "" ++ ":" ++
  digits 2 ((rest / 60000) mod 60)%Z "" ++ ":" ++
  digits 2 ((rest / 1000) mod 60)%Z "" ++ "." ++
  digits 3 (rest mod 1000)%Z "" ++ "Z".

End IsoDate.

(* ===================================================================== *)
(** ** src/utils/extension.ts *)
(* ===================================================================== *)

Module ExtensionUtils.

Section WithURL.

(** [new URL(url)]: [None] when the constructor throws its [TypeError]. *)
Variable new_URL : string -> option URL.

Definition invalid_url_message : string := "Invalid URL".

Definition construct_URL (url : string) : result URL :=
  match new_URL url with
  | Some u => Ok u
  | None => Throw invalid_url_message
  end.

(** [extractExtensionId] *)
Definition extractExtensionId (url : string) : result string :=
  if negb (JS.startsWith url "chrome-extension://") then
    Throw "Not a chrome-extension URL"
  else
    match construct_URL url with
    | Throw e => Throw e
    | Ok urlObj => Ok (hostname urlObj)
    end.

(** The classification of a lower-cased path (lines 29 to 49). *)
Definition classify_pathname (pathname : string) : string :=
  if JS.includes pathname "background" || JS.includes pathname "service_worker"
  then "service_worker"
  else if JS.includes pathname "options" then "options"
  else if JS.includes pathname "popup" then "popup"
  else if JS.includes pathname "sidebar" || JS.includes pathname "sidepanel"
  then "sidebar"
  else if JS.includes pathname "content_script" then "content_script"
  else "extension_page".

(** [getExtensionContextType] *)
Definition getExtensionContextType (url : string) : result string :=
  if negb (JS.startsWith url "chrome-extension://") then Ok "web"
  else
    match construct_URL url with
    | Throw e => Throw e
    | Ok u => Ok (classify_pathname (JS.toLowerCase (pathname u)))
    end.

(** [isSameExtension]: the comparison runs inside [try], and whatever it
    throws is answered with [false]. *)
Definition isSameExtension (url1 url2 : string) : result bool :=
  if negb (JS.startsWith url1 "chrome-extension://") ||
     negb (JS.startsWith url2 "chrome-extension://")
  then Ok false
  else
    match extractExtensionId url1 with
    | Throw _ => Ok false
    | Ok id1 =>
        match extractExtensionId url2 with
        | Throw _ => Ok false
        | Ok id2 => Ok (String.eqb id1 id2)
        end
    end.

End WithURL.

(** The seven context types. *)
Definition context_types : list string :=
  ["web"; "service_worker"; "options"; "popup"; "sidebar";
   "content_script"; "extension_page"].

End ExtensionUtils.

(* ===================================================================== *)
(** ** src/tools/extension.ts: the in-page script of get_extension_logs *)
(* ===================================================================== *)

(** [interface ExtensionLog].  The parts of [msg] are kept as the text
    that [join] renders each of them to. *)
Record ExtensionLog : Type := mkLog {
  ctx : string;
  level : string;
  msg : list string;
  sid : string;
  t : string
}.

(** What the page offers to a script run in it: [storage_local_get key]
    is the outcome of [await chrome.storage.local.get(key)] followed by
    the read of the property [key] of the object it resolves to.  [Throw]
    stands for any failure on the way (no [chrome] object, a rejected
    promise); [Ok None] for a missing key, or any stored value that [||]
    replaces by the empty array. *)
Record ChromeEnv : Type := mkEnv {
  storage_local_get : string -> result (option (list ExtensionLog))
}.

(** The value the script of [get_extension_logs] evaluates to: the array
    of entries, or the object [{error: ..}]. *)
Inductive EvalResult : Type :=
| Logs (entries : list ExtensionLog)
| EvalError (error : string).

(** The argument passed to the script (and the tool's parameters). *)
Record LogParams : Type := mkParams {
  since : option Q;
  sessionId : option string;
  maxEntries : Q;
  contextType : string;
  logLevel : string
}.

Module Logs.

Section WithDate.

(** [new Date(s).getTime()]: the time value in milliseconds, [None] for
    [NaN] (a string that is not a date). *)
Variable Date_getTime : string -> option Z.

(** [if (since)]: the number is given and is not zero. *)
Definition since_given (p : LogParams) : option Q :=
  match since p with
  | Some s => if Qeq_bool s 0 then None else Some s
  | None => None
  end.

(** [if (sessionId)]: the string is given and is not empty. *)
Definition sessionId_given (p : LogParams) : option string :=
  match sessionId p with
  | Some s => if String.eqb s "" then None else Some s
  | None => None
  end.

(** [new Date(log.t).getTime() >= since] *)
Definition not_before (s : Q) (log : ExtensionLog) : bool :=
  match Date_getTime (t log) with
  | Some ms => Qle_bool s (inject_Z ms)
  | None => false
  end.

Definition same_session (s : string) (log : ExtensionLog) : bool :=
  String.eqb (sid log) s.

(** [log.ctx === contextType ||
     (contextType === 'background' && log.ctx === 'service_worker')] *)
Definition context_matches (c : string) (log : ExtensionLog) : bool :=
  String.eqb (ctx log) c ||
  (String.eqb c "background" && String.eqb (ctx log) "service_worker").

Definition level_matches (l : string) (log : ExtensionLog) : bool :=
  String.eqb (level log) l.

Definition filter_since (p : LogParams) (logs : list ExtensionLog) :=
  match since_given p with
  | Some s => filter (not_before s) logs
  | None => logs
  end.

Definition filter_session (p : LogParams) (logs : list ExtensionLog) :=
  match sessionId_given p with
  | Some s => filter (same_session s) logs
  | None => logs
  end.

Definition filter_context (p : LogParams) (logs : list ExtensionLog) :=
  if negb (String.eqb (contextType p) "all")
  then filter (context_matches (contextType p)) logs
  else logs.

Definition filter_level (p : LogParams) (logs : list ExtensionLog) :=
  if negb (String.eqb (logLevel p) "all")
  then filter (level_matches (logLevel p)) logs
  else logs.

Definition apply_filters (p : LogParams) (logs : list ExtensionLog) :=
  filter_level p (filter_context p (filter_session p (filter_since p logs))).

(** The comparator [(a, b) => new Date(b.t).getTime() -
    new Date(a.t).getTime()]; [None] is [NaN]. *)
Definition compare_logs (a b : ExtensionLog) : option Z :=
  match Date_getTime (t b), Date_getTime (t a) with
  | Some tb, Some ta => Some (tb - ta)%Z
  | _, _ => None
  end.

(** [SortCompare]: a comparator result of [NaN] counts as [+0]. *)
Definition sort_compare (a b : ExtensionLog) : Z :=
  match compare_logs a b with
  | Some v => v
  | None => 0%Z
  end.

(** [Array.prototype.sort] is a stable sort: on a consistent comparator
    its result is the one of this insertion sort.  (On an inconsistent
    one, which here needs an entry whose [t] is not a date, ECMAScript
    leaves the order to the implementation.) *)
Fixpoint insert_log (a : ExtensionLog) (sorted : list ExtensionLog)
  : list ExtensionLog :=
  match sorted with
  | [] => [a]
  | b :: rest =>
      if (sort_compare a b <=? 0)%Z then a :: sorted
      else b :: insert_log a rest
  end.

Fixpoint sort_logs (logs : list ExtensionLog) : list ExtensionLog :=
  match logs with
  | [] => []
  | a :: rest => insert_log a (sort_logs rest)
  end.

(** The body of the script's [try] block, from the array read from
    storage on. *)
Definition select_logs (p : LogParams) (allLogs : list ExtensionLog)
  : list ExtensionLog :=
  JS.slice0 (sort_logs (apply_filters p allLogs)) (maxEntries p).

Definition dev_logs_key : string := "__dev_logs".

(** The script passed to [page.evaluate] (lines 109 to 168). *)
Definition logs_script (p : LogParams) (env : ChromeEnv) : EvalResult :=
  match storage_local_get env dev_logs_key with
  | Ok stored =>
      let allLogs := match stored with Some l => l | None => [] end in
      Logs (select_logs p allLogs)
  | Throw message =>
      EvalError ("Failed to access extension storage: " ++ message)
  end.

End WithDate.

End Logs.

(* ===================================================================== *)
(** ** src/tools/extension.ts: the tool handlers *)
(* ===================================================================== *)

(** The options object of [page.goto]. *)
Record GotoOptions : Type := mkGoto {
  waitUntil : option string;
  timeout : Z
}.

(** The value of the script of [test_extension_access]. *)
Record StorageTest : Type := mkStorageTest {
  success : bool;
  message : string
}.

Module Tools.

Section WithContext.

(** Page indices and page handles of the context, whose class is not part
    of the sources. *)
Variables idx page : Type.

(** The calls a handler awaits on the context and on a page.  Each of
    them may throw. *)
Inductive call : Type -> Type :=
| NewPage : call page
| ClosePage (i : idx) : call unit
| SetSelectedPageIdx (i : idx) : call unit
| Goto (p : page) (url : string) (options : GotoOptions) : call unit
| Evaluate (p : page) : call ChromeEnv.

(** A handler, as the tree of what it does next: return, throw, append a
    line to the response, read the selected page index, or make a call
    and go on with its outcome. *)
Inductive prog (A : Type) : Type :=
| Ret (a : A)
| Raise (message : string)
| AppendResponseLine (line : string) (k : prog A)
| GetSelectedPageIdx (k : idx -> prog A)
| Call {X : Type} (c : call X) (k : result X -> prog A).
Arguments Ret {A} a.
Arguments Raise {A} message.
Arguments AppendResponseLine {A} line k.
Arguments GetSelectedPageIdx {A} k.
Arguments Call {A X} c k.

Fixpoint bind {A B} (m : prog A) (f : A -> prog B) : prog B :=
  match m with
  | Ret a => f a
  | Raise e => Raise e
  | AppendResponseLine l k => AppendResponseLine l (bind k f)
  | GetSelectedPageIdx k => GetSelectedPageIdx (fun i => bind (k i) f)
  | Call c k => Call c (fun r => bind (k r) f)
  end.

(** [await c]: a call that throws makes the handler throw. *)
Definition perform {X} (c : call X) : prog X :=
  Call c (fun r => match r with Ok x => Ret x | Throw e => Raise e end).

Definition append (line : string) : prog unit :=
  AppendResponseLine line (Ret tt).

(** [try { m } catch (error) { h error }] *)
Fixpoint try_catch {A} (m : prog A) (h : string -> prog A) : prog A :=
  match m with
  | Ret a => Ret a
  | Raise e => h e
  | AppendResponseLine l k => AppendResponseLine l (try_catch k h)
  | GetSelectedPageIdx k => GetSelectedPageIdx (fun i => try_catch (k i) h)
  | Call c k => Call c (fun r => try_catch (k r) h)
  end.

(** [try { m } finally { f }]: [f] runs however [m] ends, and what [f]
    throws replaces the completion of [m]. *)
Fixpoint try_finally {A} (m : prog A) (f : prog unit) : prog A :=
  match m with
  | Ret a => bind f (fun _ => Ret a)
  | Raise e => bind f (fun _ => Raise e)
  | AppendResponseLine l k => AppendResponseLine l (try_finally k f)
  | GetSelectedPageIdx k => GetSelectedPageIdx (fun i => try_finally (k i) f)
  | Call c k => Call c (fun r => try_finally (k r) f)
  end.

Notation "x <- m ;; f" := (bind m (fun x => f))
  (at level 61, m at next level, right associativity).
Notation "m ;;; f" := (bind m (fun _ => f))
  (at level 61, right associativity).

Fixpoint for_each {A} (xs : list A) (f : A -> prog unit) : prog unit :=
  match xs with
  | [] => Ret tt
  | x :: xs' => f x ;;; for_each xs' f
  end.

(** *** Running a handler *)

(** A context with its browser: the selected index it reports, and how it
    answers each call. *)
Record world (W : Type) : Type := mkWorld {
  selected_of : W -> idx;
  answer : forall X, call X -> W -> result X * W
}.
Arguments selected_of {W} _ _.
Arguments answer {W} _ {X} _ _.

(** The calls made in a run, each with its outcome. *)
Inductive event : Type :=
| EvNewPage (r : result page)
| EvClosePage (i : idx) (r : result unit)
| EvSetSelectedPageIdx (i : idx) (r : result unit)
| EvGoto (p : page) (url : string) (options : GotoOptions) (r : result unit)
| EvEvaluate (p : page) (r : result ChromeEnv).

Definition event_of {X} (c : call X) : result X -> event :=
  match c in call X return result X -> event with
  | NewPage => EvNewPage
  | ClosePage i => EvClosePage i
  | SetSelectedPageIdx i => EvSetSelectedPageIdx i
  | Goto p url o => EvGoto p url o
  | Evaluate p => EvEvaluate p
  end.

(** What a run leaves: how the handler completed, the context after it,
    the lines appended to the response and the calls made, both in
    order. *)
Record outcome (A W : Type) : Type := mkOutcome {
  completion : result A;
  final : W;
  lines : list string;
  calls : list event
}.
Arguments mkOutcome {A W} _ _ _ _.
Arguments completion {A W} _.
Arguments final {A W} _.
Arguments lines {A W} _.
Arguments calls {A W} _.

(** Modelled from the spec: the class of [response] is not part of the
    sources; it is the Response Builder of section 2, an ordered sequence
    of text lines to which [appendResponseLine] adds one and which never
    fails.  [getSelectedPageIdx] returns the current selection and never
    fails (section 4.3).  Every other call is answered by the context,
    which is a parameter. *)
Fixpoint run {A W} (h : world W) (m : prog A) (w : W) : outcome A W :=
  match m with
  | Ret a => mkOutcome (Ok a) w [] []
  | Raise e => mkOutcome (Throw e) w [] []
  | AppendResponseLine l k =>
      let o := run h k w in
      mkOutcome (completion o) (final o) (l :: lines o) (calls o)
  | GetSelectedPageIdx k => run h (k (selected_of h w)) w
  | Call c k =>
      let (r, w1) := answer h c w in
      let o := run h (k r) w1 in
      mkOutcome (completion o) (final o) (lines o) (event_of c r :: calls o)
  end.

(** *** get_extension_logs *)

Variable Date_getTime : string -> option Z.
(** [new Date(ms).toISOString()] on a valid time value. *)
Variable Date_toISOString : Z -> string.

Definition networkidle (ms : Z) : GotoOptions :=
  {| waitUntil := Some "networkidle0"; timeout := ms |}.

Definition options_url (extensionId : string) : string :=
  "chrome-extension://" ++ extensionId ++ "/options.html".
Definition root_url (extensionId : string) : string :=
  "chrome-extension://" ++ extensionId ++ "/".
Definition manifest_url (extensionId : string) : string :=
  "chrome-extension://" ++ extensionId ++ "/manifest.json".

(** Lines 91 to 105: the options page, and the root of the extension when
    that navigation throws. *)
Definition navigate (extensionId : string) (p : page) : prog unit :=
  try_catch
    (perform (Goto p (options_url extensionId) (networkidle 10000)))
    (fun _ => perform (Goto p (root_url extensionId) (networkidle 10000))).

(** [page.evaluate(script, ..)]: the script runs in the page's
    environment, unless the call itself throws. *)
Definition evaluate {A} (p : page) (script : ChromeEnv -> A) : prog A :=
  env <- perform (Evaluate p) ;; Ret (script env).

Definition no_logs_lines : list string :=
  ["No logs found matching the specified criteria.";
   "";
   "This could mean:";
   "- The extension does not implement a dev log sink";
   "- No logs have been generated yet";
   "- The filter criteria are too restrictive"].

(** [logsBySession]: a [Map] from session id to its entries, keys in the
    order of their first entry. *)
Fixpoint add_to_session (log : ExtensionLog)
  (groups : list (string * list ExtensionLog))
  : list (string * list ExtensionLog) :=
  match groups with
  | [] => [(sid log, [log])]
  | (s, ls) :: rest =>
      if String.eqb s (sid log) then (s, (ls ++ [log])%list) :: rest
      else (s, ls) :: add_to_session log rest
  end.

Definition group_by_session (logs : list ExtensionLog)
  : list (string * list ExtensionLog) :=
  fold_left (fun groups log => add_to_session log groups) logs [].

Definition rule_char : string := "‚îÄ".

(** Lines 212 to 221; [toISOString] throws a [RangeError] on an invalid
    date. *)
Definition log_line (log : ExtensionLog) : prog unit :=
  match Date_getTime (t log) with
  | None => Raise "Invalid time value"
  | Some ms =>
      let timestamp := Date_toISOString ms in
      let level := JS.padEnd (JS.toUpperCase (level log)) 5 in
      let context := JS.padEnd (ctx log) 10 in
      let message := JS.join " " (msg log) in
      append (timestamp ++ " [" ++ level ++ "] " ++ context ++ " " ++ message)
  end.

Definition session_lines (group : string * list ExtensionLog) : prog unit :=
  append ("Session: " ++ fst group) ;;;
  append (JS.repeat rule_char 50) ;;;
  for_each (snd group) log_line ;;;
  append "".

(** Lines 193 to 224. *)
Definition report_logs (extensionId : string) (logs : list ExtensionLog)
  : prog unit :=
  append ("Found " ++ JS.string_of_nat (List.length logs) ++
          " log entries for extension " ++ extensionId) ;;;
  append "" ;;;
  for_each (group_by_session logs) session_lines.

(** Lines 172 to 224: the response written from the value of the
    script. *)
Definition write_logs (extensionId : string) (logs : EvalResult) : prog unit :=
  match logs with
  | EvalError error => append ("Error: " ++ error)
  | Logs [] => for_each no_logs_lines append
  | Logs entries => report_logs extensionId entries
  end.

(** Lines 107 to 224: the evaluation of the script, and the response. *)
Definition present_logs (extensionId : string) (params : LogParams) (p : page)
  : prog unit :=
  logs <- evaluate p (Logs.logs_script Date_getTime params) ;;
  write_logs extensionId logs.

(** The inner [try] block (lines 89 to 224). *)
Definition logs_body (extensionId : string) (params : LogParams) (p : page)
  : prog unit :=
  navigate extensionId p ;;;
  present_logs extensionId params p.

(** The [finally] block of both handlers. *)
Definition cleanup (newPageIdx originalPageIdx : idx) : prog unit :=
  perform (ClosePage newPageIdx) ;;;
  perform (SetSelectedPageIdx originalPageIdx).

(** The outer [try] block of [get_extension_logs] (lines 82 to 230). *)
Definition logs_protected (extensionId : string) (params : LogParams)
  : prog unit :=
  GetSelectedPageIdx (fun originalPageIdx =>
  p <- perform NewPage ;;
  GetSelectedPageIdx (fun newPageIdx =>
  try_finally (logs_body extensionId params p)
              (cleanup newPageIdx originalPageIdx))).

(** The handler of [get_extension_logs]. *)
Definition get_extension_logs (extensionId : string) (params : LogParams)
  : prog unit :=
  try_catch (logs_protected extensionId params)
    (fun error => append ("Failed to retrieve extension logs: " ++ error)).

(** *** test_extension_access *)

Definition check_mark : string := "‚úì".
Definition cross_mark : string := "‚úó".

Definition only_timeout (ms : Z) : GotoOptions :=
  {| waitUntil := None; timeout := ms |}.

(** One of the three navigation tests. *)
Definition test_goto (p : page) (url what : string) (missing : string)
  : prog string :=
  try_catch
    (perform (Goto p url (networkidle 5000)) ;;;
     Ret (check_mark ++ " " ++ what))
    (fun _ => Ret (cross_mark ++ " " ++ missing)).

(** The script of the storage test (lines 317 to 328). *)
Definition storage_script (env : ChromeEnv) : StorageTest :=
  match storage_local_get env "test" with
  | Ok _ => {| success := true; message := "Storage API accessible" |}
  | Throw e => {| success := false; message := "Storage API error: " ++ e |}
  end.

Definition test_storage (extensionId : string) (p : page) : prog string :=
  try_catch
    (perform (Goto p (root_url extensionId) (only_timeout 5000)) ;;;
     storageTest <- evaluate p storage_script ;;
     if success storageTest
     then Ret (check_mark ++ " Storage API accessible")
     else Ret (cross_mark ++ " Storage API issue: " ++ message storageTest))
    (fun _ => Ret (cross_mark ++ " Could not test storage API")).

(** The inner [try] block (lines 277 to 337): [testResults] after it. *)
Definition access_body (extensionId : string) (p : page)
  : prog (list string) :=
  r1 <- test_goto p (options_url extensionId)
          "Options page accessible" "Options page not accessible" ;;
  r2 <- test_goto p (manifest_url extensionId)
          "Manifest accessible" "Manifest not accessible" ;;
  r3 <- test_goto p (root_url extensionId)
          "Extension root accessible" "Extension root not accessible" ;;
  r4 <- test_storage extensionId p ;;
  Ret [r1; r2; r3; r4].

Definition verdict_line (successCount totalTests : nat) : string :=
  if (successCount =? totalTests)%nat then
    "üéâ Extension appears to be working correctly!"
  else if (0 <? successCount)%nat then
    "‚ö†Ô∏è  Extension has some issues but is partially functional"
  else
    "‚ùå Extension appears to have significant issues".

(** Lines 345 to 373. *)
Definition display_results (testResults : list string) : prog unit :=
  append "Extension Test Results:" ;;;
  append (JS.repeat rule_char 30) ;;;
  for_each testResults append ;;;
  let successCount :=
    List.length (filter (fun r => JS.startsWith r check_mark) testResults) in
  let totalTests := List.length testResults in
  append "" ;;;
  append ("Summary: " ++ JS.string_of_nat successCount ++ "/" ++
          JS.string_of_nat totalTests ++ " tests passed") ;;;
  append (verdict_line successCount totalTests).

(** The outer [try] block of [test_extension_access]. *)
Definition access_protected (extensionId : string) : prog unit :=
  GetSelectedPageIdx (fun originalPageIdx =>
  p <- perform NewPage ;;
  GetSelectedPageIdx (fun newPageIdx =>
  testResults <- try_finally (access_body extensionId p)
                             (cleanup newPageIdx originalPageIdx) ;;
  display_results testResults)).

(** The handler of [test_extension_access]. *)
Definition test_extension_access (extensionId : string) : prog unit :=
  append ("Testing extension: " ++ extensionId) ;;;
  append "" ;;;
  try_catch (access_protected extensionId)
    (fun error => append ("Failed to test extension: " ++ error)).

End WithContext.

Arguments Ret {idx page A} a.
Arguments Raise {idx page A} message.
Arguments AppendResponseLine {idx page A} line k.
Arguments GetSelectedPageIdx {idx page A} k.
Arguments Call {idx page A X} c k.
Arguments NewPage {idx page}.
Arguments ClosePage {idx page} i.
Arguments SetSelectedPageIdx {idx page} i.
Arguments Goto {idx page} p url options.
Arguments Evaluate {idx page} p.
Arguments EvNewPage {idx page} r.
Arguments EvClosePage {idx page} i r.
Arguments EvSetSelectedPageIdx {idx page} i r.
Arguments EvGoto {idx page} p url options r.
Arguments EvEvaluate {idx page} p r.
Arguments mkWorld {idx page W} _ _.
Arguments selected_of {idx page W} _ _.
Arguments answer {idx page W} _ {X} _ _.
Arguments mkOutcome {idx page A W} _ _ _ _.
Arguments completion {idx page A W} _.
Arguments final {idx page A W} _.
Arguments lines {idx page A W} _.
Arguments calls {idx page A W} _.
Arguments run {idx page A W} h m w.
Arguments bind {idx page A B} m f.
Arguments perform {idx page X} c.
Arguments append {idx page} line.
Arguments try_catch {idx page A} m h.
Arguments try_finally {idx page A} m f.
Arguments for_each {idx page A} xs f.
Arguments navigate {idx page} extensionId p.
Arguments evaluate {idx page A} p script.
Arguments log_line {idx page} Date_getTime Date_toISOString log.
Arguments session_lines {idx page} Date_getTime Date_toISOString group.
Arguments report_logs {idx page} Date_getTime Date_toISOString extensionId logs.
Arguments write_logs {idx page} Date_getTime Date_toISOString extensionId logs.
Arguments present_logs {idx page} Date_getTime Date_toISOString extensionId params p.
Arguments logs_body {idx page} Date_getTime Date_toISOString extensionId params p.
Arguments cleanup {idx page} newPageIdx originalPageIdx.
Arguments logs_protected {idx page} Date_getTime Date_toISOString extensionId params.
Arguments get_extension_logs {idx page} Date_getTime Date_toISOString extensionId params.
Arguments test_goto {idx page} p url what missing.
Arguments test_storage {idx page} extensionId p.
Arguments access_body {idx page} extensionId p.
Arguments display_results {idx page} testResults.
Arguments access_protected {idx page} extensionId.
Arguments test_extension_access {idx page} extensionId.
Arguments event_of {idx page X} c _.

End Tools.

(* ===================================================================== *)
(** ** The Session Context *)
(* ===================================================================== *)

Module Session.

(** Modelled from the spec: the class behind [context] (the Session
    Context of section 4.3) is not part of the sources.  A session is the
    ordered sequence of open pages and the selected index, which is a
    valid index or none.  Pages are named by the driver's ids. *)
Record session : Type := mkSession {
  pages : list nat;
  selected : option nat
}.

(** The selected index is a valid index, or none when no page is open. *)
Definition well_formed (s : session) : Prop :=
  match selected s with
  | Some i => i < List.length (pages s)
  | None => pages s = []
  end.

Definition valid_index (s : session) (i : option nat) : bool :=
  match i with
  | Some n => (n <? List.length (pages s))%nat
  | None => false
  end.

Fixpoint remove_at {A} (n : nat) (xs : list A) : list A :=
  match n, xs with
  | _, [] => []
  | O, _ :: xs' => xs'
  | S n', x :: xs' => x :: remove_at n' xs'
  end.

Definition index_error : string := "IndexOutOfRangeError".

(** Modelled from the spec: [newPage] appends the page and makes it the
    selection. *)
Definition newPage (id : nat) (s : session) : session :=
  {| pages := (pages s ++ [id])%list;
     selected := Some (List.length (pages s)) |}.

(** Modelled from the spec: [closePage(i)] removes page [i], keeps the
    order of the others, and resets the selection to index 0 if a page
    remains, else to none.  The spec names no failure of it; on an index
    that names no page this model answers with the error of [getPage]. *)
Definition closePage (i : option nat) (s : session) : result unit * session :=
  if valid_index s i then
    let rest := remove_at (match i with Some n => n | None => 0 end) (pages s) in
    (Ok tt, {| pages := rest;
               selected := match rest with [] => None | _ => Some 0 end |})
  else (Throw index_error, s).

(** Modelled from the spec: [setSelectedPageIndex(i)] fails with
    [IndexOutOfRangeError] if [i] is not a valid index. *)
Definition setSelectedPageIdx (i : option nat) (s : session)
  : result unit * session :=
  if valid_index s i then (Ok tt, {| pages := pages s; selected := i |})
  else (Throw index_error, s).

(** The browser behind the session, as a script of what its driver does:
    the outcome of the [n]-th driver call (opening a page, a navigation,
    an evaluation).  [Some e] is a failure with message [e]. *)
Record driver : Type := mkDriver {
  opening : nat -> option string;
  navigation : nat -> string -> GotoOptions -> option string;
  evaluation : nat -> result ChromeEnv
}.

Record browser : Type := mkBrowser {
  sess : session;
  clock : nat
}.

Definition outcome_of (failure : option string) : result unit :=
  match failure with
  | None => Ok tt
  | Some e => Throw e
  end.

Definition respond (d : driver) {X} (c : Tools.call (option nat) nat X)
  : browser -> result X * browser :=
  match c in Tools.call _ _ X return browser -> result X * browser with
  | Tools.NewPage => fun b =>
      match opening d (clock b) with
      | None =>
          (Ok (clock b),
           {| sess := newPage (clock b) (sess b); clock := S (clock b) |})
      | Some e => (Throw e, {| sess := sess b; clock := S (clock b) |})
      end
  | Tools.ClosePage i => fun b =>
      let (r, s) := closePage i (sess b) in
      (r, {| sess := s; clock := clock b |})
  | Tools.SetSelectedPageIdx i => fun b =>
      let (r, s) := setSelectedPageIdx i (sess b) in
      (r, {| sess := s; clock := clock b |})
  | Tools.Goto p url o => fun b =>
      (outcome_of (navigation d (clock b) url o),
       {| sess := sess b; clock := S (clock b) |})
  | Tools.Evaluate p => fun b =>
      (evaluation d (clock b), {| sess := sess b; clock := S (clock b) |})
  end.

(** The Session Context over a scripted browser. *)
Definition context (d : driver) : Tools.world (option nat) nat browser :=
  Tools.mkWorld (fun b => selected (sess b)) (fun X c => respond d c).

End Session.

(* ===================================================================== *)
(** ** The execution mutex of the dispatcher *)
(* ===================================================================== *)

Module Mutex.

(** Modelled from the spec: the dispatcher and its mutex (section 4.2,
    steps 3 to 5, and section 5) are not part of the sources.  Tool calls
    are named by numbers.  A call that arrives takes the mutex if it is
    free and starts its handler, else it joins the end of the queue; a
    running handler may await driver operations any number of times; when
    it finishes, the mutex passes to the head of the queue, or is freed.
    Any call that is running may take the next step: which one does is
    left to the scheduler. *)
Inductive action : Type :=
| Start
| Await
| Finish.

Record state : Type := mkState {
  locked : bool;
  queue : list nat;
  running : list nat;
  arrivals : list nat;
  log : list (nat * action)
}.

Definition initial : state :=
  {| locked := false; queue := []; running := []; arrivals := []; log := [] |}.

Definition remove (c : nat) (cs : list nat) : list nat :=
  filter (fun x => negb (x =? c)%nat) cs.

(** [acquire] *)
Definition arrive (c : nat) (s : state) : state :=
  if locked s then
    {| locked := true; queue := (queue s ++ [c])%list; running := running s;
       arrivals := (arrivals s ++ [c])%list; log := log s |}
  else
    {| locked := true; queue := queue s; running := c :: running s;
       arrivals := (arrivals s ++ [c])%list;
       log := (log s ++ [(c, Start)])%list |}.

Definition await (c : nat) (s : state) : state :=
  {| locked := locked s; queue := queue s; running := running s;
     arrivals := arrivals s; log := (log s ++ [(c, Await)])%list |}.

(** The handler of [c] ends and [release] runs. *)
Definition finish (c : nat) (s : state) : state :=
  match queue s with
  | [] =>
      {| locked := false; queue := []; running := remove c (running s);
         arrivals := arrivals s; log := (log s ++ [(c, Finish)])%list |}
  | next :: rest =>
      {| locked := true; queue := rest;
         running := next :: remove c (running s);
         arrivals := arrivals s;
         log := (log s ++ [(c, Finish); (next, Start)])%list |}
  end.

Inductive step : state -> state -> Prop :=
| step_arrive c s :
    ~ In c (arrivals s) -> step s (arrive c s)
| step_await c s :
    In c (running s) -> step s (await c s)
| step_finish c s :
    In c (running s) -> step s (finish c s).

Inductive reachable : state -> Prop :=
| reach_initial : reachable initial
| reach_step s s' : reachable s -> step s s' -> reachable s'.

(** The calls whose handler has started, in the order of their start. *)
Definition started (l : list (nat * action)) : list nat :=
  map fst (filter (fun e => match snd e with Start => true | _ => false end) l).

(** A log is serial when the actions of one call, from its start to its
    end, are never mixed with those of another: [serial cur l] reads [l]
    with [cur] the call that holds the mutex before it. *)
Fixpoint serial (cur : option nat) (l : list (nat * action)) : bool :=
  match l with
  | [] => true
  | (c, a) :: l' =>
      match cur, a with
      | None, Start => serial (Some c) l'
      | Some h, Await => (h =? c)%nat && serial cur l'
      | Some h, Finish => (h =? c)%nat && serial None l'
      | _, _ => false
      end
  end.

(** Who holds the mutex after a serial log. *)
Fixpoint holder_after (cur : option nat) (l : list (nat * action))
  : option nat :=
  match l with
  | [] => cur
  | (c, Start) :: l' => holder_after (Some c) l'
  | (_, Await) :: l' => holder_after cur l'
  | (_, Finish) :: l' => holder_after None l'
  end.

End Mutex.

(* ===================================================================== *)
(** * Properties *)
(* ===================================================================== *)

(** ** src/utils/extension.ts *)

Module ExtensionUtilsFacts.
Import ExtensionUtils.

Section WithURL.

Variable new_URL : string -> option URL.

Lemma classify_pathname_values (p : string) :
  In (classify_pathname p) context_types.
Proof.
  unfold classify_pathname, context_types.
  repeat match goal with
         | |- context [if ?b then _ else _] => destruct b
         end; simpl; tauto.
Qed.

(** A string that is not a chrome-extension URL is a web page. *)
Lemma getExtensionContextType_web (url : string) :
  JS.startsWith url "chrome-extension://" = false ->
  getExtensionContextType new_URL url = Ok "web".
Proof.
  intros H. unfold getExtensionContextType. now rewrite H.
Qed.

(** Where the URL constructor accepts the string, the result is one of
    the seven context types. *)
Lemma getExtensionContextType_values (url : string) (u : URL) :
  new_URL url = Some u ->
  exists c, getExtensionContextType new_URL url = Ok c /\ In c context_types.
Proof.
  intros H. unfold getExtensionContextType, construct_URL. rewrite H.
  destruct (negb _).
  - exists "web". split; [reflexivity | simpl; tauto].
  - eexists. split; [reflexivity | apply classify_pathname_values].
Qed.

(** A chrome-extension URL whose lower-cased path contains [background]
    is a service worker. *)
Lemma getExtensionContextType_background (url : string) (u : URL) :
  JS.startsWith url "chrome-extension://" = true ->
  new_URL url = Some u ->
  JS.includes (JS.toLowerCase (pathname u)) "background" = true ->
  getExtensionContextType new_URL url = Ok "service_worker".
Proof.
  intros Hp Hu Hb. unfold getExtensionContextType, construct_URL.
  rewrite Hp, Hu. simpl. unfold classify_pathname. now rewrite Hb.
Qed.

(** Where the URL constructor throws on a string that starts with
    [chrome-extension://], so does [getExtensionContextType]: nothing
    catches the [TypeError]. *)
Lemma getExtensionContextType_throws (url : string) :
  JS.startsWith url "chrome-extension://" = true ->
  new_URL url = None ->
  getExtensionContextType new_URL url = Throw invalid_url_message.
Proof.
  intros Hp Hu. unfold getExtensionContextType, construct_URL.
  now rewrite Hp, Hu.
Qed.

(** C10.  [isSameExtension] never throws: it returns a boolean for every
    pair of strings.  It is symmetric.  It returns [false] when either
    argument does not start with [chrome-extension://].  On a string that
    starts with it and that the URL constructor accepts, compared with
    itself, it returns [true]. *)
Theorem isSameExtension_total_symmetric (url1 url2 : string) :
  (exists b, isSameExtension new_URL url1 url2 = Ok b) /\
  isSameExtension new_URL url1 url2 = isSameExtension new_URL url2 url1 /\
  (JS.startsWith url1 "chrome-extension://" = false \/
   JS.startsWith url2 "chrome-extension://" = false ->
   isSameExtension new_URL url1 url2 = Ok false) /\
  (JS.startsWith url1 "chrome-extension://" = true ->
   new_URL url1 <> None ->
   isSameExtension new_URL url1 url1 = Ok true).
Proof.
  unfold isSameExtension, extractExtensionId, construct_URL.
  repeat split.
  - destruct (JS.startsWith url1 _), (JS.startsWith url2 _); simpl;
      try (eexists; reflexivity).
    destruct (new_URL url1), (new_URL url2); eexists; reflexivity.
  - destruct (JS.startsWith url1 _), (JS.startsWith url2 _); simpl;
      try reflexivity.
    destruct (new_URL url1), (new_URL url2); try reflexivity.
    now rewrite String.eqb_sym.
  - intros [H | H]; rewrite H; simpl; [reflexivity |].
    now rewrite orb_true_r.
  - intros Hp Hu. rewrite Hp. simpl.
    destruct (new_URL url1); [| congruence].
    now rewrite String.eqb_refl.
Qed.

(** On every string that does not start with [chrome-extension://] the
    result is [web]; on every other string that the URL constructor
    accepts it is one of the seven context types, and it is
    [service_worker] when the lower-cased path contains [background]. *)
Theorem getExtensionContextType_classifies (url : string) :
  (JS.startsWith url "chrome-extension://" = false ->
   getExtensionContextType new_URL url = Ok "web") /\
  (forall u, new_URL url = Some u ->
     (exists c, getExtensionContextType new_URL url = Ok c /\
                In c context_types) /\
     (JS.startsWith url "chrome-extension://" = true ->
      JS.includes (JS.toLowerCase (pathname u)) "background" = true ->
      getExtensionContextType new_URL url = Ok "service_worker")).
Proof.
  split; [apply getExtensionContextType_web |].
  intros u Hu. split.
  - eapply getExtensionContextType_values, Hu.
  - intros Hp Hb. eapply getExtensionContextType_background; eassumption.
Qed.

End WithURL.

Definition sample_extension_url : string :=
  "chrome-extension://abcdefghijklmnopabcdefghijklmnop/options.html".

Lemma isSameExtension_witness :
  JS.startsWith sample_extension_url "chrome-extension://" = true /\
  Url.new_URL sample_extension_url <> None /\
  isSameExtension Url.new_URL sample_extension_url sample_extension_url
    = Ok true.
Proof.
  split; [reflexivity |]. split; [discriminate |].
  apply (isSameExtension_total_symmetric Url.new_URL
           sample_extension_url sample_extension_url);
    [reflexivity | discriminate].
Defined.

(** C9, at a string on which the claim fails.  The URL constructor
    rejects a host with a space in it, and [getExtensionContextType]
    throws on this string instead of returning a context type. *)
Theorem getExtensionContextType_throws_on_bad_host :
  JS.startsWith "chrome-extension://a b/background.js" "chrome-extension://"
    = true /\
  getExtensionContextType Url.new_URL "chrome-extension://a b/background.js"
    = Throw "Invalid URL" /\
  isSameExtension Url.new_URL "chrome-extension://a b/background.js"
                  "chrome-extension://a b/background.js" = Ok false.
Proof. repeat split; reflexivity. Qed.

Definition sample_worker_url : string :=
  "chrome-extension://abcdefghijklmnopabcdefghijklmnop/js/Background.js".

Lemma getExtensionContextType_classifies_witness :
  JS.startsWith sample_worker_url "chrome-extension://" = true /\
  Url.new_URL sample_worker_url =
    Some {| hostname := "abcdefghijklmnopabcdefghijklmnop";
            pathname := "/js/Background.js" |} /\
  getExtensionContextType Url.new_URL sample_worker_url = Ok "service_worker".
Proof.
  split; [reflexivity |]. split; [reflexivity |].
  destruct (getExtensionContextType_classifies Url.new_URL sample_worker_url)
    as [_ H].
  destruct (H _ eq_refl) as [_ Hb]. apply Hb; reflexivity.
Defined.

End ExtensionUtilsFacts.

(** ** The in-page script of get_extension_logs *)

Module LogsFacts.
Import Logs.

Lemma firstn_incl {A} (n : nat) (xs : list A) (x : A) :
  In x (firstn n xs) -> In x xs.
Proof.
  revert xs. induction n as [| n IH]; intros [| y ys]; simpl; try tauto.
  intros [H | H]; [left; exact H | right; apply IH, H].
Qed.

Lemma slice0_incl {A} (xs : list A) (n : Q) (x : A) :
  In x (JS.slice0 xs n) -> In x xs.
Proof. unfold JS.slice0. apply firstn_incl. Qed.

(** An array no longer than the requested maximum is returned whole. *)
Lemma slice0_all {A} (xs : list A) (n : Q) :
  (Z.of_nat (List.length xs) <= JS.toInteger n)%Z -> JS.slice0 xs n = xs.
Proof.
  intros H. unfold JS.slice0.
  assert (Hn : (0 <= JS.toInteger n)%Z) by lia.
  apply Z.ltb_ge in Hn. rewrite Hn.
  rewrite Z.min_r by exact H. rewrite Nat2Z.id.
  apply firstn_all2. reflexivity.
Qed.

Lemma toInteger_le (q : Q) : (0 <= q)%Q -> (inject_Z (JS.toInteger q) <= q)%Q.
Proof.
  destruct q as [n d]. unfold Qle, JS.toInteger. simpl. intros H.
  assert (Hn : (0 <= n)%Z) by lia.
  pose proof (Z.mul_quot_le n (Zpos d) Hn) as Hq.
  assert (Hd : Zpos d <> 0%Z) by discriminate.
  specialize (Hq Hd). lia.
Qed.

(** [slice(0, n)] keeps at most [n] entries. *)
Lemma slice0_length {A} (xs : list A) (n : Q) :
  (0 <= n)%Q ->
  (inject_Z (Z.of_nat (List.length (JS.slice0 xs n))) <= n)%Q.
Proof.
  intros Hn. pose proof (toInteger_le n Hn) as Hle.
  assert (H0 : (0 <= JS.toInteger n)%Z).
  { destruct n as [a d]. unfold Qle in Hn. unfold JS.toInteger. simpl in *.
    apply Z.quot_pos; lia. }
  eapply Qle_trans; [| exact Hle].
  rewrite <- Zle_Qle. unfold JS.slice0.
  apply Z.ltb_ge in H0. rewrite H0. apply Z.ltb_ge in H0.
  pose proof (firstn_le_length
                (Z.to_nat (Z.min (JS.toInteger n) (Z.of_nat (List.length xs)))) xs).
  lia.
Qed.

Section WithDate.

Variable Date_getTime : string -> option Z.

Local Abbreviation sort_logs := (sort_logs Date_getTime).
Local Abbreviation insert_log := (insert_log Date_getTime).
Local Abbreviation select_logs := (select_logs Date_getTime).
Local Abbreviation apply_filters := (apply_filters Date_getTime).
Local Abbreviation filter_since := (filter_since Date_getTime).

(** The entry's [t] is a date. *)
Definition dated (log : ExtensionLog) : Prop :=
  exists ms, Date_getTime (t log) = Some ms.

(** [a] is at least as recent as [b] (and both are dated). *)
Definition not_older (a b : ExtensionLog) : Prop :=
  match Date_getTime (t a), Date_getTime (t b) with
  | Some ta, Some tb => (tb <= ta)%Z
  | _, _ => False
  end.

(** The entry's time is at least [s]. *)
Definition at_or_after (s : Q) (log : ExtensionLog) : Prop :=
  exists ms, Date_getTime (t log) = Some ms /\ (s <= inject_Z ms)%Q.

Lemma not_older_trans (a b c : ExtensionLog) :
  not_older a b -> not_older b c -> not_older a c.
Proof.
  unfold not_older.
  destruct (Date_getTime (t a)), (Date_getTime (t b)), (Date_getTime (t c));
    try tauto; lia.
Qed.

Lemma insert_log_perm (a : ExtensionLog) (l : list ExtensionLog) :
  Permutation (a :: l) (insert_log a l).
Proof.
  induction l as [| b l IH]; simpl.
  - apply Permutation_refl.
  - destruct (sort_compare Date_getTime a b <=? 0)%Z.
    + apply Permutation_refl.
    + eapply Permutation_trans; [apply perm_swap |].
      apply perm_skip, IH.
Qed.

(** Sorting keeps the entries. *)
Lemma sort_logs_perm (l : list ExtensionLog) : Permutation l (sort_logs l).
Proof.
  induction l as [| a l IH]; simpl.
  - apply Permutation_refl.
  - eapply Permutation_trans; [apply perm_skip, IH | apply insert_log_perm].
Qed.

Lemma insert_log_sorted (a : ExtensionLog) (l : list ExtensionLog) :
  dated a -> Forall dated l ->
  StronglySorted not_older l -> StronglySorted not_older (insert_log a l).
Proof.
  intros [ta Ha] Hd Hs. induction Hs as [| b l Hs IH Hb]; simpl.
  - constructor; constructor.
  - apply Forall_cons_iff in Hd. destruct Hd as [[tb Hb'] Hd].
    unfold sort_compare, compare_logs. rewrite Ha, Hb'.
    destruct (tb - ta <=? 0)%Z eqn:E.
    + apply Z.leb_le in E.
      assert (Hab : not_older a b).
      { unfold not_older. rewrite Ha, Hb'. lia. }
      constructor; [constructor; assumption |].
      constructor; [exact Hab |].
      eapply Forall_impl; [| exact Hb].
      intros c Hc. eapply not_older_trans; eassumption.
    + apply Z.leb_gt in E.
      constructor; [apply IH, Hd |].
      eapply Permutation_Forall; [apply insert_log_perm |].
      constructor; [| exact Hb].
      unfold not_older. rewrite Ha, Hb'. lia.
Qed.

(** Where every entry is dated, sorting puts the most recent first. *)
Lemma sort_logs_sorted (l : list ExtensionLog) :
  Forall dated l -> StronglySorted not_older (sort_logs l).
Proof.
  induction l as [| a l IH]; simpl; intros Hd.
  - constructor.
  - apply Forall_cons_iff in Hd. destruct Hd as [Ha Hd].
    apply insert_log_sorted; [exact Ha | | apply IH, Hd].
    eapply Permutation_Forall; [apply sort_logs_perm | exact Hd].
Qed.

Lemma firstn_sorted {A} (R : A -> A -> Prop) (n : nat) (l : list A) :
  StronglySorted R l -> StronglySorted R (firstn n l).
Proof.
  intros Hs. revert n. induction Hs as [| a l Hs IH Ha]; intros [| n]; simpl;
    try constructor.
  - apply IH.
  - apply Forall_forall. intros x Hx.
    eapply Forall_forall in Ha; [exact Ha |]. eapply firstn_incl, Hx.
Qed.

Lemma filter_level_incl p l x : In x (filter_level p l) -> In x l.
Proof.
  unfold filter_level. destruct (negb _); [| tauto].
  intros H. apply filter_In in H. tauto.
Qed.

Lemma filter_context_incl p l x : In x (filter_context p l) -> In x l.
Proof.
  unfold filter_context. destruct (negb _); [| tauto].
  intros H. apply filter_In in H. tauto.
Qed.

Lemma filter_session_incl p l x : In x (filter_session p l) -> In x l.
Proof.
  unfold filter_session. destruct (sessionId_given p); [| tauto].
  intros H. apply filter_In in H. tauto.
Qed.

Lemma filter_since_incl p l x : In x (filter_since p l) -> In x l.
Proof.
  unfold Logs.filter_since. destruct (since_given p); [| tauto].
  intros H. apply filter_In in H. tauto.
Qed.

Lemma select_logs_filtered p l x :
  In x (select_logs p l) -> In x (apply_filters p l).
Proof.
  unfold Logs.select_logs. intros H. apply slice0_incl in H.
  eapply Permutation_in; [apply Permutation_sym, sort_logs_perm | exact H].
Qed.

(** The script returns stored entries only. *)
Lemma select_logs_incl p l x : In x (select_logs p l) -> In x l.
Proof.
  intros H. apply select_logs_filtered in H. unfold Logs.apply_filters in H.
  apply filter_level_incl, filter_context_incl, filter_session_incl,
    filter_since_incl in H. exact H.
Qed.

(** The context filter in the words of the specification: for
    [background] the entries tagged [background] or [service_worker],
    for any other value the entries tagged with that value. *)
Definition retained_by (c : string) (log : ExtensionLog) : bool :=
  if String.eqb c "background"
  then String.eqb (ctx log) "background" ||
       String.eqb (ctx log) "service_worker"
  else String.eqb (ctx log) c.

Lemma context_matches_retained (c : string) (log : ExtensionLog) :
  context_matches c log = retained_by c log.
Proof.
  unfold context_matches, retained_by.
  destruct (String.eqb c "background") eqn:E.
  - apply String.eqb_eq in E. subst c. reflexivity.
  - simpl. apply orb_false_r.
Qed.

Lemma filter_context_retained (p : LogParams) (l : list ExtensionLog) :
  contextType p <> "all" ->
  filter_context p l = filter (retained_by (contextType p)) l.
Proof.
  intros H. unfold filter_context.
  apply String.eqb_neq in H. rewrite H. simpl.
  apply filter_ext. intros log. apply context_matches_retained.
Qed.

(** C2.  With a [contextType] other than [all], the context filter keeps
    exactly the entries the specification names: for [background] those
    tagged [background] or [service_worker], for another value [c] those
    tagged [c].  Every entry the script returns is a stored entry of that
    kind; and when no other filter applies and the maximum is not
    reached, the script returns exactly the stored entries of that
    kind. *)
Theorem context_filter_alias (p : LogParams) (stored : list ExtensionLog) :
  contextType p <> "all" ->
  filter_context p stored = filter (retained_by (contextType p)) stored /\
  (forall log, In log (select_logs p stored) ->
     In log stored /\ retained_by (contextType p) log = true) /\
  (since_given p = None -> sessionId_given p = None -> logLevel p = "all" ->
   (Z.of_nat (List.length stored) <= JS.toInteger (maxEntries p))%Z ->
   forall log, In log (select_logs p stored) <->
     In log stored /\ retained_by (contextType p) log = true).
Proof.
  intros Hc. split; [apply filter_context_retained, Hc |]. split.
  - intros log H. split; [eapply select_logs_incl, H |].
    apply select_logs_filtered in H. unfold Logs.apply_filters in H.
    apply filter_level_incl in H.
    rewrite filter_context_retained in H by exact Hc.
    apply filter_In in H. tauto.
  - intros Hs Hi Hl Hm log.
    unfold Logs.select_logs, Logs.apply_filters, Logs.filter_since,
      filter_session, filter_level.
    rewrite Hs, Hi, Hl. simpl.
    rewrite filter_context_retained by exact Hc.
    rewrite slice0_all.
    + rewrite <- filter_In. split; intros H.
      * eapply Permutation_in; [apply Permutation_sym, sort_logs_perm | exact H].
      * eapply Permutation_in; [apply sort_logs_perm | exact H].
    + rewrite <- (Permutation_length (sort_logs_perm _)).
      pose proof (filter_length_le (retained_by (contextType p)) stored).
      lia.
Qed.

Lemma filter_since_dated (p : LogParams) (s : Q) (l : list ExtensionLog) :
  since_given p = Some s ->
  Forall (at_or_after s) (filter_since p l).
Proof.
  intros Hs. unfold Logs.filter_since. rewrite Hs.
  apply Forall_forall. intros log H. apply filter_In in H.
  destruct H as [_ H]. unfold not_before in H. unfold at_or_after.
  destruct (Date_getTime (t log)) as [ms |]; [| discriminate].
  exists ms. split; [reflexivity | apply Qle_bool_imp_le, H].
Qed.

Lemma apply_filters_since (p : LogParams) (s : Q) (l : list ExtensionLog) :
  since_given p = Some s ->
  Forall (at_or_after s) (apply_filters p l).
Proof.
  intros Hs. apply Forall_forall. intros log H.
  unfold Logs.apply_filters in H.
  apply filter_level_incl, filter_context_incl, filter_session_incl in H.
  eapply Forall_forall in H; [exact H | apply filter_since_dated, Hs].
Qed.

(** With a [since] that is not zero and a non-negative [maxEntries], the
    script returns only entries whose time is at least [since], at most
    [maxEntries] of them, the most recent first. *)
Lemma select_logs_since (p : LogParams) (s : Q) (stored : list ExtensionLog) :
  since_given p = Some s ->
  (0 <= maxEntries p)%Q ->
  Forall (at_or_after s) (select_logs p stored) /\
  (inject_Z (Z.of_nat (List.length (select_logs p stored))) <= maxEntries p)%Q /\
  StronglySorted not_older (select_logs p stored).
Proof.
  intros Hs Hm. pose proof (apply_filters_since p s stored Hs) as Hf.
  split; [| split].
  - apply Forall_forall. intros log H. apply select_logs_filtered in H.
    eapply Forall_forall in Hf; [exact Hf | exact H].
  - apply slice0_length, Hm.
  - unfold Logs.select_logs, JS.slice0. apply firstn_sorted, sort_logs_sorted.
    eapply Forall_impl; [| exact Hf].
    intros log [ms [H _]]. exists ms. exact H.
Qed.

(** With a [since] other than zero and a [maxEntries] that is not
    negative, the script returns only entries whose time is at least
    [since], at most [maxEntries] entries, the most recent first. *)
Theorem since_filter_bounds_and_order (p : LogParams) (s : Q)
  (stored : list ExtensionLog) :
  since p = Some s ->
  ~ (s == 0)%Q ->
  (0 <= maxEntries p)%Q ->
  Forall (at_or_after s) (select_logs p stored) /\
  (inject_Z (Z.of_nat (List.length (select_logs p stored))) <= maxEntries p)%Q /\
  StronglySorted not_older (select_logs p stored).
Proof.
  intros Hs Hz Hm. apply select_logs_since; [| exact Hm].
  unfold since_given. rewrite Hs.
  destruct (Qeq_bool s 0) eqn:E; [| reflexivity].
  apply Qeq_bool_eq in E. contradiction.
Qed.

End WithDate.

(** The scenario of section 8: three stored entries, and one written by
    a service worker. *)
Definition entry (c l s time : string) : ExtensionLog :=
  {| ctx := c; level := l; msg := ["message"]; sid := s; t := time |}.

Definition stored_sample : list ExtensionLog :=
  [entry "background" "info" "s1" "2025-01-01T00:00:01.000Z";
   entry "options" "error" "s1" "2025-01-01T00:00:02.000Z";
   entry "background" "warn" "s2" "2025-01-01T00:00:03.000Z";
   entry "service_worker" "log" "s2" "2025-01-01T00:00:02.500Z"].

Definition background_params : LogParams :=
  {| since := None; sessionId := None; maxEntries := 10%Q;
     contextType := "background"; logLevel := "all" |}.

Example select_background :
  Logs.select_logs IsoDate.getTime background_params stored_sample =
  [entry "background" "warn" "s2" "2025-01-01T00:00:03.000Z";
   entry "service_worker" "log" "s2" "2025-01-01T00:00:02.500Z";
   entry "background" "info" "s1" "2025-01-01T00:00:01.000Z"].
Proof. reflexivity. Qed.

Lemma context_filter_alias_witness :
  contextType background_params <> "all" /\
  filter_context background_params stored_sample =
    filter (retained_by "background") stored_sample /\
  (forall log,
     In log (Logs.select_logs IsoDate.getTime background_params stored_sample) ->
     In log stored_sample /\ retained_by "background" log = true).
Proof.
  split; [discriminate |].
  destruct (context_filter_alias IsoDate.getTime background_params
              stored_sample) as [H1 [H2 _]]; [discriminate |].
  split; [exact H1 | exact H2].
Defined.

(** An entry written one second before 1970. *)
Definition old_entry : ExtensionLog :=
  entry "background" "info" "s1" "1969-12-31T23:59:59.000Z".

Definition since_params (s : Q) : LogParams :=
  {| since := Some s; sessionId := None; maxEntries := 100%Q;
     contextType := "all"; logLevel := "all" |}.

(** C3, at a call on which the claim fails.  With [since = 0] the guard
    [if (since)] skips the time filter, and the script returns an entry
    whose time, -1000, is below [since].  With [since = 1] the same entry
    is filtered out. *)
Theorem since_zero_is_not_applied :
  IsoDate.getTime (t old_entry) = Some (-1000)%Z /\
  Logs.select_logs IsoDate.getTime (since_params 0) [old_entry] = [old_entry] /\
  Logs.select_logs IsoDate.getTime (since_params 1) [old_entry] = [].
Proof. repeat split; reflexivity. Qed.

Definition recent_params : LogParams :=
  {| since := Some (inject_Z 1735689602000); sessionId := None;
     maxEntries := 2%Q; contextType := "all"; logLevel := "all" |}.

Example select_recent :
  Logs.select_logs IsoDate.getTime recent_params stored_sample =
  [entry "background" "warn" "s2" "2025-01-01T00:00:03.000Z";
   entry "service_worker" "log" "s2" "2025-01-01T00:00:02.500Z"].
Proof. reflexivity. Qed.

Lemma since_filter_bounds_and_order_witness :
  since recent_params = Some (inject_Z 1735689602000) /\
  ~ (inject_Z 1735689602000 == 0)%Q /\
  (0 <= maxEntries recent_params)%Q /\
  Forall (at_or_after IsoDate.getTime (inject_Z 1735689602000))
    (Logs.select_logs IsoDate.getTime recent_params stored_sample) /\
  StronglySorted (not_older IsoDate.getTime)
    (Logs.select_logs IsoDate.getTime recent_params stored_sample).
Proof.
  assert (H1 : ~ (inject_Z 1735689602000 == 0)%Q) by discriminate.
  assert (H2 : (0 <= maxEntries recent_params)%Q) by discriminate.
  split; [reflexivity |]. split; [exact H1 |]. split; [exact H2 |].
  destruct (since_filter_bounds_and_order IsoDate.getTime recent_params
              (inject_Z 1735689602000) stored_sample eq_refl H1 H2)
    as [Ha [_ Hb]].
  split; [exact Ha | exact Hb].
Defined.

End LogsFacts.

(** ** The tool handlers *)

Module ToolsFacts.
Import Tools.

Section WithWorld.

Variables idx page W : Type.
Variable h : world idx page W.

(** The outcome of [o] followed by [o2]. *)
Definition and_then {A B} (o : outcome idx page A W) (o2 : outcome idx page B W)
  : outcome idx page B W :=
  mkOutcome (completion o2) (final o2)
            (lines o ++ lines o2)%list (calls o ++ calls o2)%list.

Lemma and_then_start {A B} (a : A) (w : W) (o2 : outcome idx page B W) :
  and_then (mkOutcome (Ok a) w [] []) o2 = o2.
Proof. destruct o2; reflexivity. Qed.

Lemma run_bind {A B} (m : prog idx page A) (f : A -> prog idx page B) (w : W) :
  run h (bind m f) w =
  match completion (run h m w) with
  | Ok a => and_then (run h m w) (run h (f a) (final (run h m w)))
  | Throw e =>
      mkOutcome (Throw e) (final (run h m w)) (lines (run h m w))
                (calls (run h m w))
  end.
Proof.
  revert w. induction m as [a | e | l k IH | k IH | X c k IH]; intros w;
    cbn [bind run].
  - cbn. now rewrite and_then_start.
  - reflexivity.
  - rewrite IH. destruct (run h k w) as [[a | e] w1 ls cs]; reflexivity.
  - apply IH.
  - destruct (answer h c w) as [r w1]. rewrite IH.
    destruct (run h (k r) w1) as [[a | e] w2 ls cs]; reflexivity.
Qed.

Lemma run_try_catch {A} (m : prog idx page A) (k : string -> prog idx page A)
  (w : W) :
  run h (try_catch m k) w =
  match completion (run h m w) with
  | Ok a => run h m w
  | Throw e => and_then (run h m w) (run h (k e) (final (run h m w)))
  end.
Proof.
  revert w. induction m as [a | e | l m IH | m IH | X c m IH]; intros w;
    cbn [try_catch run].
  - reflexivity.
  - cbn. destruct (run h (k e) w); reflexivity.
  - rewrite IH. destruct (run h m w) as [[a | e] w1 ls cs]; reflexivity.
  - apply IH.
  - destruct (answer h c w) as [r w1]. rewrite IH.
    destruct (run h (m r) w1) as [[a | e] w2 ls cs]; reflexivity.
Qed.

Lemma run_try_finally {A} (m : prog idx page A) (f : prog idx page unit)
  (w : W) :
  run h (try_finally m f) w =
  let o := run h m w in
  let o2 := run h f (final o) in
  mkOutcome (match completion o2 with
             | Ok _ => completion o
             | Throw e => Throw e
             end)
            (final o2) (lines o ++ lines o2)%list (calls o ++ calls o2)%list.
Proof.
  revert w. induction m as [a | e | l m IH | m IH | X c m IH]; intros w;
    cbn [try_finally run].
  - rewrite run_bind. cbn.
    destruct (run h f w) as [[[] | e] w1 ls cs]; unfold and_then; cbn;
      rewrite ?app_nil_r; reflexivity.
  - rewrite run_bind. cbn.
    destruct (run h f w) as [[[] | e'] w1 ls cs]; unfold and_then; cbn;
      rewrite ?app_nil_r; reflexivity.
  - rewrite IH. reflexivity.
  - apply IH.
  - destruct (answer h c w) as [r w1]. rewrite IH. reflexivity.
Qed.


Lemma run_perform {X} (c : call idx page X) (w : W) :
  run h (perform c) w =
  mkOutcome (fst (answer h c w)) (snd (answer h c w)) []
            [event_of c (fst (answer h c w))].
Proof.
  unfold perform. cbn. destruct (answer h c w) as [[x | e] w1]; reflexivity.
Qed.

Lemma run_append (l : string) (w : W) :
  run h (append l) w = mkOutcome (Ok tt) w [l] [].
Proof. reflexivity. Qed.

Lemma run_for_each_append (ls : list string) (w : W) :
  run h (for_each ls append) w = mkOutcome (Ok tt) w ls [].
Proof.
  induction ls as [| l ls IH]; cbn; [reflexivity |].
  cbn in IH. rewrite IH. reflexivity.
Qed.

(** The line a handler's [catch] block appends for what its [try] block
    threw. *)
Definition error_line {A} (prefix : string) (r : result A) : list string :=
  match r with
  | Ok _ => []
  | Throw e => [prefix ++ e]
  end.

Lemma run_catch_append (m : prog idx page unit) (prefix : string) (w : W) :
  run h (try_catch m (fun e => append (prefix ++ e))) w =
  mkOutcome (Ok tt) (final (run h m w))
            (lines (run h m w) ++ error_line prefix (completion (run h m w)))%list
            (calls (run h m w)).
Proof.
  rewrite run_try_catch.
  destruct (run h m w) as [[[] | e] w1 ls cs]; unfold and_then; cbn;
    rewrite ?app_nil_r; reflexivity.
Qed.

(** The calls of the [finally] block: the page is closed, and the
    selection is set once that call has returned. *)
Definition cleanup_calls (newPageIdx originalPageIdx : idx)
  (closed : result unit) (restored : result unit) : list (event idx page) :=
  match closed with
  | Ok _ => [EvClosePage newPageIdx closed;
             EvSetSelectedPageIdx originalPageIdx restored]
  | Throw _ => [EvClosePage newPageIdx closed]
  end.

Lemma run_cleanup (newPageIdx originalPageIdx : idx) (w : W) :
  let closed := answer h (ClosePage newPageIdx) w in
  let restored := answer h (SetSelectedPageIdx originalPageIdx) (snd closed) in
  run h (cleanup newPageIdx originalPageIdx) w =
  match fst closed with
  | Ok _ =>
      mkOutcome (fst restored) (snd restored) []
                (cleanup_calls newPageIdx originalPageIdx (fst closed)
                               (fst restored))
  | Throw e =>
      mkOutcome (Throw e) (snd closed) []
                (cleanup_calls newPageIdx originalPageIdx (fst closed)
                               (fst restored))
  end.
Proof.
  cbn. destruct (answer h (ClosePage newPageIdx) w) as [[[] | e] w1]; cbn;
    [| reflexivity].
  destruct (answer h (SetSelectedPageIdx originalPageIdx) w1) as [[[] | e] w2];
    reflexivity.
Qed.


Lemma cleanup_lines (newPageIdx originalPageIdx : idx) (w : W) :
  lines (run h (cleanup newPageIdx originalPageIdx) w) = [].
Proof.
  pose proof (run_cleanup newPageIdx originalPageIdx w) as H. cbv zeta in H.
  rewrite H. destruct (fst (answer h (ClosePage newPageIdx) w)); reflexivity.
Qed.

(** How a [try] block with a [finally] block completes. *)
Definition protect {A} (body : result A) (finalizer : result unit) : result A :=
  match finalizer with
  | Ok _ => body
  | Throw e => Throw e
  end.

Variable Date_getTime : string -> option Z.
Variable Date_toISOString : Z -> string.

Local Abbreviation logs_body := (logs_body Date_getTime Date_toISOString).
Local Abbreviation present_logs := (present_logs Date_getTime Date_toISOString).
Local Abbreviation logs_protected :=
  (logs_protected Date_getTime Date_toISOString).
Local Abbreviation get_extension_logs :=
  (get_extension_logs Date_getTime Date_toISOString).

Definition logs_prefix : string := "Failed to retrieve extension logs: ".
Definition access_prefix : string := "Failed to test extension: ".

(** The run of [get_extension_logs] when the page cannot be opened. *)
Lemma get_extension_logs_unopened (extensionId : string) (params : LogParams)
  (w w1 : W) (e : string) :
  answer h NewPage w = (Throw e, w1) ->
  run h (get_extension_logs extensionId params) w =
  mkOutcome (Ok tt) w1 [logs_prefix ++ e] [EvNewPage (Throw e)].
Proof.
  intros H. unfold Tools.get_extension_logs. rewrite run_catch_append.
  unfold Tools.logs_protected. cbn. rewrite H. reflexivity.
Qed.

(** The run of [get_extension_logs] once the page is open: the inner
    [try] block, then the [finally] block, then the [catch] block if
    either of them threw. *)
Lemma get_extension_logs_opened (extensionId : string) (params : LogParams)
  (w w1 : W) (p : page) :
  answer h NewPage w = (Ok p, w1) ->
  let body := run h (logs_body extensionId params p) w1 in
  let fin := run h (cleanup (selected_of h w1) (selected_of h w)) (final body) in
  run h (get_extension_logs extensionId params) w =
  mkOutcome (Ok tt) (final fin)
    (lines body ++
     error_line logs_prefix (protect (completion body) (completion fin)))%list
    (EvNewPage (Ok p) :: calls body ++ calls fin)%list.
Proof.
  intros H body fin. unfold Tools.get_extension_logs. rewrite run_catch_append.
  unfold Tools.logs_protected. cbn [run]. rewrite run_bind, run_perform, H.
  cbn [fst snd completion final lines calls run]. rewrite run_try_finally.
  subst body fin. cbv zeta. unfold and_then, protect.
  cbn [completion final lines calls app event_of].
  rewrite cleanup_lines, app_nil_r. reflexivity.
Qed.


Local Abbreviation primary id := (options_url id).
Local Abbreviation fallback id := (root_url id).

Lemma navigate_primary (extensionId : string) (p : page) (w w1 : W) :
  answer h (Goto p (primary extensionId) (networkidle 10000)) w = (Ok tt, w1) ->
  run h (navigate extensionId p) w =
  mkOutcome (Ok tt) w1 []
    [EvGoto p (primary extensionId) (networkidle 10000) (Ok tt)].
Proof.
  intros H. unfold navigate. rewrite run_try_catch, run_perform, H. reflexivity.
Qed.

Lemma navigate_fallback (extensionId : string) (p : page) (w w1 w2 : W)
  (e1 : string) (r2 : result unit) :
  answer h (Goto p (primary extensionId) (networkidle 10000)) w = (Throw e1, w1) ->
  answer h (Goto p (fallback extensionId) (networkidle 10000)) w1 = (r2, w2) ->
  run h (navigate extensionId p) w =
  mkOutcome r2 w2 []
    [EvGoto p (primary extensionId) (networkidle 10000) (Throw e1);
     EvGoto p (fallback extensionId) (networkidle 10000) r2].
Proof.
  intros H1 H2. unfold navigate. rewrite run_try_catch, run_perform, H1.
  cbn [fst snd completion final]. rewrite run_perform, H2. reflexivity.
Qed.

(** Navigation appends nothing to the response. *)
Lemma navigate_lines (extensionId : string) (p : page) (w : W) :
  lines (run h (navigate extensionId p) w) = [].
Proof.
  destruct (answer h (Goto p (primary extensionId) (networkidle 10000)) w)
    as [[[] | e1] w1] eqn:H1.
  - erewrite navigate_primary by exact H1. reflexivity.
  - destruct (answer h (Goto p (fallback extensionId) (networkidle 10000)) w1)
      as [r2 w2] eqn:H2.
    erewrite navigate_fallback by eassumption. reflexivity.
Qed.

Lemma run_logs_body (extensionId : string) (params : LogParams) (p : page)
  (w : W) :
  let nav := run h (navigate extensionId p) w in
  run h (logs_body extensionId params p) w =
  match completion nav with
  | Ok _ => and_then nav (run h (present_logs extensionId params p) (final nav))
  | Throw e => mkOutcome (Throw e) (final nav) [] (calls nav)
  end.
Proof.
  cbv zeta. unfold Tools.logs_body. rewrite run_bind.
  rewrite navigate_lines. reflexivity.
Qed.

Lemma get_extension_logs_completes (extensionId : string) (params : LogParams)
  (w : W) :
  completion (run h (get_extension_logs extensionId params) w) = Ok tt.
Proof.
  unfold Tools.get_extension_logs. rewrite run_catch_append. reflexivity.
Qed.

(** C4.  When the navigation to
    [chrome-extension://<extensionId>/options.html], made with a timeout
    of 10000 ms, throws, the handler navigates to
    [chrome-extension://<extensionId>/], with a timeout of 10000 ms of
    its own.  If that navigation returns, the handler goes on with the
    evaluation and what the first navigation threw appears nowhere in the
    response.  If it throws too, its error is the one reported, in the
    single line of the [catch] block.  Either way the handler itself
    returns. *)
Theorem navigation_falls_back (extensionId : string) (params : LogParams)
  (w0 w1 w2 w3 : W) (p : page) (e1 : string) (r2 : result unit) :
  let options_page :=
    ("chrome-extension://" ++ extensionId ++ "/options.html")%string in
  let extension_root := ("chrome-extension://" ++ extensionId ++ "/")%string in
  let bounded := {| waitUntil := Some "networkidle0"; timeout := 10000 |} in
  answer h NewPage w0 = (Ok p, w1) ->
  answer h (Goto p options_page bounded) w1 = (Throw e1, w2) ->
  answer h (Goto p extension_root bounded) w2 = (r2, w3) ->
  let attempts :=
    [EvGoto p options_page bounded (Throw e1);
     EvGoto p extension_root bounded r2] in
  let rest := run h (present_logs extensionId params p) w3 in
  let body :=
    match r2 with
    | Ok _ => mkOutcome (completion rest) (final rest) (lines rest)
                        (attempts ++ calls rest)%list
    | Throw e2 => mkOutcome (Throw e2) w3 [] attempts
    end in
  let fin := run h (cleanup (selected_of h w1) (selected_of h w0)) (final body) in
  run h (navigate extensionId p) w1 = mkOutcome r2 w3 [] attempts /\
  run h (get_extension_logs extensionId params) w0 =
  mkOutcome (Ok tt) (final fin)
    (lines body ++
     error_line "Failed to retrieve extension logs: "
       (protect (completion body) (completion fin)))%list
    (EvNewPage (Ok p) :: calls body ++ calls fin)%list.
Proof.
  intros options_page extension_root bounded H0 H1 H2 attempts rest body fin.
  pose proof (navigate_fallback extensionId p w1 w2 w3 e1 r2 H1 H2) as Hn.
  split; [exact Hn |].
  pose proof (get_extension_logs_opened extensionId params w0 w1 p H0) as Hg.
  cbv zeta in Hg. rewrite Hg. clear Hg.
  assert (Hb : run h (logs_body extensionId params p) w1 = body).
  { pose proof (run_logs_body extensionId params p w1) as Hb.
    cbv zeta in Hb. rewrite Hb, Hn. subst body rest.
    destruct r2 as [[] | e2]; reflexivity. }
  rewrite Hb. reflexivity.
Qed.

Lemma run_present_logs (extensionId : string) (params : LogParams) (p : page)
  (w w1 : W) (env : ChromeEnv) :
  answer h (Evaluate p) w = (Ok env, w1) ->
  let written :=
    run h (write_logs Date_getTime Date_toISOString extensionId
             (Logs.logs_script Date_getTime params env)) w1 in
  run h (present_logs extensionId params p) w =
  mkOutcome (completion written) (final written) (lines written)
            (EvEvaluate p (Ok env) :: calls written).
Proof.
  intros H written. unfold Tools.present_logs, evaluate.
  rewrite !run_bind, run_perform, H. reflexivity.
Qed.

(** The run of [get_extension_logs] when the page opens, a navigation
    succeeds and the evaluation returns. *)
Lemma get_extension_logs_evaluated (extensionId : string) (params : LogParams)
  (w0 w1 w3 : W) (p : page) (env : ChromeEnv) :
  answer h NewPage w0 = (Ok p, w1) ->
  let nav := run h (navigate extensionId p) w1 in
  completion nav = Ok tt ->
  answer h (Evaluate p) (final nav) = (Ok env, w3) ->
  let written :=
    run h (write_logs Date_getTime Date_toISOString extensionId
             (Logs.logs_script Date_getTime params env)) w3 in
  let fin :=
    run h (cleanup (selected_of h w1) (selected_of h w0)) (final written) in
  run h (get_extension_logs extensionId params) w0 =
  mkOutcome (Ok tt) (final fin)
    (lines written ++
     error_line logs_prefix (protect (completion written) (completion fin)))%list
    (EvNewPage (Ok p) :: calls nav ++
     EvEvaluate p (Ok env) :: calls written ++ calls fin)%list.
Proof.
  intros H0 nav Hn He written fin.
  pose proof (get_extension_logs_opened extensionId params w0 w1 p H0) as Hg.
  cbv zeta in Hg. rewrite Hg. clear Hg.
  pose proof (run_logs_body extensionId params p w1) as Hb.
  cbv zeta in Hb. fold nav in Hb. rewrite Hn in Hb.
  pose proof (run_present_logs extensionId params p (final nav) w3 env He) as Hp.
  cbv zeta in Hp. fold written in Hp. rewrite Hp in Hb. rewrite Hb.
  unfold and_then. cbn [completion final lines calls].
  pose proof (navigate_lines extensionId p w1) as Hl. fold nav in Hl.
  rewrite Hl. cbn [app]. fold fin. rewrite <- app_assoc. reflexivity.
Qed.

(** C5.  When the storage API fails inside the script, the script
    returns the value [{error: ..}] instead of throwing, and the handler
    appends the one line [Error: ..] for it and returns.  (A line of the
    [catch] block follows only if closing the page or restoring the
    selection throws afterwards.) *)
Theorem storage_failure_is_reported (extensionId : string) (params : LogParams)
  (w0 w1 w3 : W) (p : page) (env : ChromeEnv) (msg : string) :
  answer h NewPage w0 = (Ok p, w1) ->
  let nav := run h (navigate extensionId p) w1 in
  completion nav = Ok tt ->
  answer h (Evaluate p) (final nav) = (Ok env, w3) ->
  storage_local_get env Logs.dev_logs_key = Throw msg ->
  let fin := run h (cleanup (selected_of h w1) (selected_of h w0)) w3 in
  Logs.logs_script Date_getTime params env =
    EvalError ("Failed to access extension storage: " ++ msg) /\
  run h (get_extension_logs extensionId params) w0 =
  mkOutcome (Ok tt) (final fin)
    (("Error: Failed to access extension storage: " ++ msg)
     :: error_line logs_prefix (completion fin))
    (EvNewPage (Ok p) :: calls nav ++ EvEvaluate p (Ok env) :: calls fin)%list.
Proof.
  intros H0 nav Hn He Hs fin.
  assert (Hv : Logs.logs_script Date_getTime params env =
               EvalError ("Failed to access extension storage: " ++ msg)).
  { unfold Logs.logs_script. rewrite Hs. reflexivity. }
  split; [exact Hv |].
  pose proof (get_extension_logs_evaluated extensionId params w0 w1 w3 p env
                H0 Hn He) as Hg.
  cbv zeta in Hg. rewrite Hg, Hv. clear Hg. subst fin nav.
  cbn [write_logs run append completion final lines calls app protect].
  destruct (completion (run h (cleanup (selected_of h w1) (selected_of h w0)) w3));
    reflexivity.
Qed.

Lemma select_logs_nil (params : LogParams) :
  Logs.select_logs Date_getTime params [] = [].
Proof.
  unfold Logs.select_logs, Logs.apply_filters, Logs.filter_level,
    Logs.filter_context, Logs.filter_session, Logs.filter_since.
  destruct (Logs.since_given params), (Logs.sessionId_given params),
    (negb (String.eqb (contextType params) "all")),
    (negb (String.eqb (logLevel params) "all")); cbn;
    unfold JS.slice0; cbn; now rewrite firstn_nil.
Qed.

Lemma select_logs_excluded (params : LogParams) (l : list ExtensionLog) :
  Logs.apply_filters Date_getTime params l = [] ->
  Logs.select_logs Date_getTime params l = [].
Proof.
  intros H. unfold Logs.select_logs. rewrite H. cbn.
  unfold JS.slice0. cbn. now rewrite firstn_nil.
Qed.

(** C6.  When nothing is stored under the log key [__dev_logs], or an
    empty list, or entries that the filters all exclude, the script
    returns the empty list and the handler answers with the six lines of
    the explanation: that no logs were found, and the three possible
    causes (no dev log sink, no logs generated yet, filters too
    restrictive); it reports no error.  (A line of the [catch] block
    follows only if closing the page or restoring the selection throws
    afterwards.) *)
Theorem no_logs_is_explained (extensionId : string) (params : LogParams)
  (w0 w1 w3 : W) (p : page) (env : ChromeEnv)
  (stored : option (list ExtensionLog)) :
  answer h NewPage w0 = (Ok p, w1) ->
  let nav := run h (navigate extensionId p) w1 in
  completion nav = Ok tt ->
  answer h (Evaluate p) (final nav) = (Ok env, w3) ->
  storage_local_get env "__dev_logs" = Ok stored ->
  (stored = None \/ stored = Some [] \/
   exists l, stored = Some l /\ Logs.apply_filters Date_getTime params l = []) ->
  let fin := run h (cleanup (selected_of h w1) (selected_of h w0)) w3 in
  Logs.logs_script Date_getTime params env = Logs [] /\
  run h (get_extension_logs extensionId params) w0 =
  mkOutcome (Ok tt) (final fin)
    (["No logs found matching the specified criteria.";
      "";
      "This could mean:";
      "- The extension does not implement a dev log sink";
      "- No logs have been generated yet";
      "- The filter criteria are too restrictive"] ++
     error_line "Failed to retrieve extension logs: " (completion fin))%list
    (EvNewPage (Ok p) :: calls nav ++ EvEvaluate p (Ok env) :: calls fin)%list.
Proof.
  intros H0 nav Hn He Hs Hempty fin.
  assert (Hv : Logs.logs_script Date_getTime params env = Logs []).
  { unfold Logs.logs_script. change Logs.dev_logs_key with "__dev_logs".
    rewrite Hs. f_equal.
    destruct Hempty as [-> | [-> | [l [-> Hl]]]].
    - apply select_logs_nil.
    - apply select_logs_nil.
    - apply select_logs_excluded, Hl. }
  split; [exact Hv |].
  pose proof (get_extension_logs_evaluated extensionId params w0 w1 w3 p env
                H0 Hn He) as Hg.
  cbv zeta in Hg. rewrite Hg, Hv. clear Hg. subst fin nav.
  unfold write_logs. rewrite run_for_each_append.
  cbn [completion final lines calls app protect].
  destruct (completion (run h (cleanup (selected_of h w1) (selected_of h w0)) w3));
    reflexivity.
Qed.

(** *** test_extension_access *)

Lemma run_test_goto (p : page) (url what missing : string) (w : W) :
  let r := answer h (Goto p url (networkidle 5000)) w in
  run h (test_goto p url what missing) w =
  mkOutcome
    (Ok (if is_ok (fst r) then check_mark ++ " " ++ what
         else cross_mark ++ " " ++ missing))
    (snd r) [] [EvGoto p url (networkidle 5000) (fst r)].
Proof.
  cbv zeta. unfold test_goto. rewrite run_try_catch, run_bind, run_perform.
  destruct (answer h (Goto p url (networkidle 5000)) w) as [[[] | e] w1];
    reflexivity.
Qed.

(** The storage test never throws and appends nothing. *)
Lemma run_test_storage (extensionId : string) (p : page) (w : W) :
  exists line,
    completion (run h (test_storage extensionId p) w) = Ok line /\
    lines (run h (test_storage extensionId p) w) = [].
Proof.
  unfold test_storage, evaluate.
  rewrite run_try_catch, !run_bind, run_perform.
  destruct (answer h (Goto p (root_url extensionId) (only_timeout 5000)) w)
    as [[[] | e] w1]; cbn [fst snd completion final lines calls];
    [| eexists; split; reflexivity].
  rewrite ?run_bind, run_perform.
  destruct (answer h (Evaluate p) w1) as [[env | e] w2];
    cbn [fst snd completion final lines calls];
    [| eexists; split; reflexivity].
  cbn [run]. unfold and_then. cbn [completion final lines calls].
  destruct (success (storage_script env)); cbn; eexists; split; reflexivity.
Qed.

(** The inner [try] block of [test_extension_access] never throws: it
    ends with the four result lines, and appends nothing itself. *)
Lemma access_body_completes (extensionId : string) (p : page) (w : W) :
  exists r1 r2 r3 r4,
    completion (run h (access_body extensionId p) w) = Ok [r1; r2; r3; r4] /\
    lines (run h (access_body extensionId p) w) = [].
Proof.
  unfold access_body.
  rewrite run_bind.
  pose proof (run_test_goto p (options_url extensionId)
                "Options page accessible" "Options page not accessible" w) as E1.
  cbv zeta in E1. rewrite E1. clear E1.
  cbn [completion final lines calls]. unfold and_then.
  cbn [completion final lines calls app].
  rewrite run_bind.
  match goal with |- context [run h (test_goto p ?u ?a ?b) ?w'] =>
    pose proof (run_test_goto p u a b w') as E2; cbv zeta in E2; rewrite E2;
    clear E2 end.
  cbn [completion final lines calls]. unfold and_then.
  cbn [completion final lines calls app].
  rewrite run_bind.
  match goal with |- context [run h (test_goto p ?u ?a ?b) ?w'] =>
    pose proof (run_test_goto p u a b w') as E3; cbv zeta in E3; rewrite E3;
    clear E3 end.
  cbn [completion final lines calls]. unfold and_then.
  cbn [completion final lines calls app].
  rewrite run_bind.
  match goal with |- context [run h (test_storage extensionId p) ?w'] =>
    destruct (run_test_storage extensionId p w') as [r4 [Hc Hl]];
    destruct (run h (test_storage extensionId p) w') as [c4 f4 l4 cs4] end.
  cbn [completion lines] in Hc, Hl. subst c4 l4.
  unfold and_then. cbn [run completion final lines calls app].
  do 4 eexists. split; reflexivity.
Qed.

(** The lines of lines 345 to 373. *)
Definition display_lines (testResults : list string) : list string :=
  let successCount :=
    List.length (filter (fun r => JS.startsWith r check_mark) testResults) in
  let totalTests := List.length testResults in
  (["Extension Test Results:"; JS.repeat rule_char 30] ++ testResults ++
   [EmptyString;
    ("Summary: " ++ JS.string_of_nat successCount ++ "/" ++
     JS.string_of_nat totalTests ++ " tests passed")%string;
    verdict_line successCount totalTests])%list.

Lemma run_display_results (testResults : list string) (w : W) :
  run h (display_results testResults) w =
  mkOutcome (Ok tt) w (display_lines testResults) [].
Proof.
  unfold display_results, display_lines.
  repeat (rewrite run_bind; rewrite ?run_append, ?run_for_each_append;
          cbn [completion final lines calls]).
  rewrite ?run_append.
  unfold and_then. cbn [completion final lines calls app].
  rewrite <- ?app_assoc. reflexivity.
Qed.

Lemma access_protected_unopened (extensionId : string) (w w1 : W) (e : string) :
  answer h NewPage w = (Throw e, w1) ->
  run h (access_protected extensionId) w =
  mkOutcome (Throw e) w1 [] [EvNewPage (Throw e)].
Proof.
  intros H. unfold access_protected. cbn [run].
  rewrite run_bind, run_perform, H. reflexivity.
Qed.

(** The outer [try] block of [test_extension_access] once the page is
    open: the tests, the [finally] block, and the results if that block
    did not throw. *)
Lemma access_protected_opened (extensionId : string) (w w1 : W) (p : page) :
  answer h NewPage w = (Ok p, w1) ->
  let body := run h (access_body extensionId p) w1 in
  let fin := run h (cleanup (selected_of h w1) (selected_of h w)) (final body) in
  run h (access_protected extensionId) w =
  mkOutcome
    (match protect (completion body) (completion fin) with
     | Ok _ => Ok tt
     | Throw e => Throw e
     end)
    (final fin)
    (match protect (completion body) (completion fin) with
     | Ok testResults => display_lines testResults
     | Throw _ => []
     end)
    (EvNewPage (Ok p) :: calls body ++ calls fin)%list.
Proof.
  intros H body fin. unfold access_protected. cbn [run].
  rewrite run_bind, run_perform, H.
  cbn [fst snd completion final lines calls run].
  rewrite run_bind, run_try_finally. cbv zeta. fold body. fold fin.
  cbn [completion final lines calls]. unfold protect.
  destruct (access_body_completes extensionId p w1) as [r1 [r2 [r3 [r4 [Hc Hl]]]]].
  fold body in Hc, Hl. rewrite Hc, Hl.
  pose proof (cleanup_lines (selected_of h w1) (selected_of h w) (final body))
    as Hf. fold fin in Hf. rewrite Hf.
  destruct (completion fin) as [[] | e].
  - rewrite run_display_results. unfold and_then.
    cbn [completion final lines calls event_of app].
    rewrite app_nil_r. reflexivity.
  - reflexivity.
Qed.

Lemma run_test_extension_access (extensionId : string) (w : W) :
  let access := run h (access_protected extensionId) w in
  run h (test_extension_access extensionId) w =
  mkOutcome (Ok tt) (final access)
    ([("Testing extension: " ++ extensionId)%string; EmptyString] ++
     lines access ++ error_line access_prefix (completion access))%list
    (calls access).
Proof.
  cbv zeta. unfold test_extension_access.
  repeat (rewrite run_bind; rewrite ?run_append;
          cbn [completion final lines calls]).
  rewrite run_catch_append. reflexivity.
Qed.

Lemma test_extension_access_completes (extensionId : string) (w : W) :
  completion (run h (test_extension_access extensionId) w) = Ok tt.
Proof.
  pose proof (run_test_extension_access extensionId w) as H.
  cbv zeta in H. rewrite H. reflexivity.
Qed.

(** C7.  Whatever is thrown inside the outer [try] block of a handler,
    the [finally] block included, the handler itself returns: its [catch]
    block appends one line holding the error to the lines written so far.
    When nothing is thrown no such line is added.  Nothing else of the
    run changes. *)
Theorem handlers_catch_everything (extensionId : string) (params : LogParams)
  (w : W) :
  let logs := run h (logs_protected extensionId params) w in
  let access := run h (access_protected extensionId) w in
  run h (get_extension_logs extensionId params) w =
  mkOutcome (Ok tt) (final logs)
    (lines logs ++ error_line logs_prefix (completion logs))%list
    (calls logs) /\
  run h (test_extension_access extensionId) w =
  mkOutcome (Ok tt) (final access)
    ([("Testing extension: " ++ extensionId)%string; EmptyString] ++
     lines access ++ error_line access_prefix (completion access))%list
    (calls access).
Proof.
  cbv zeta. split.
  - unfold Tools.get_extension_logs. apply run_catch_append.
  - apply run_test_extension_access.
Qed.

(** *** Programs that only use the page *)

(** A program that never calls the context: it may navigate and evaluate,
    but opens, closes and selects no page. *)
Inductive page_only {A} : prog idx page A -> Prop :=
| po_ret a : page_only (Ret a)
| po_raise e : page_only (Raise e)
| po_append l k : page_only k -> page_only (AppendResponseLine l k)
| po_selected k : (forall i, page_only (k i)) -> page_only (GetSelectedPageIdx k)
| po_goto p url o k :
    (forall r, page_only (k r)) -> page_only (Call (Goto p url o) k)
| po_evaluate p k :
    (forall r, page_only (k r)) -> page_only (Call (Evaluate p) k).

Definition page_event (e : event idx page) : Prop :=
  match e with
  | EvGoto _ _ _ _ | EvEvaluate _ _ => True
  | _ => False
  end.

Lemma page_only_bind {A B} (m : prog idx page A) (f : A -> prog idx page B) :
  page_only m -> (forall a, page_only (f a)) -> page_only (bind m f).
Proof.
  intros Hm Hf. induction Hm; cbn [bind]; try (constructor; auto).
  apply Hf.
Qed.

Lemma page_only_try_catch {A} (m : prog idx page A)
  (k : string -> prog idx page A) :
  page_only m -> (forall e, page_only (k e)) -> page_only (try_catch m k).
Proof.
  intros Hm Hk. induction Hm; cbn [try_catch]; try (constructor; auto).
  apply Hk.
Qed.

Lemma page_only_for_each {A} (xs : list A) (f : A -> prog idx page unit) :
  (forall x, page_only (f x)) -> page_only (for_each xs f).
Proof.
  intros Hf. induction xs as [| x xs IH]; cbn [for_each].
  - constructor.
  - apply page_only_bind; [apply Hf | intros _; exact IH].
Qed.

Lemma page_only_goto (p : page) (url : string) (o : GotoOptions) :
  page_only (perform (Goto p url o)).
Proof. constructor. intros [[] | e]; constructor. Qed.

Lemma page_only_evaluate {A} (p : page) (script : ChromeEnv -> A) :
  page_only (evaluate p script).
Proof.
  unfold evaluate, perform. cbn [bind]. constructor.
  intros [env | e]; cbn [bind]; constructor.
Qed.

Lemma page_only_append (l : string) : page_only (append (idx := idx) (page := page) l).
Proof. repeat constructor. Qed.

Lemma page_only_write_logs (extensionId : string) (logs : EvalResult) :
  page_only (write_logs (idx := idx) (page := page)
               Date_getTime Date_toISOString extensionId logs).
Proof.
  destruct logs as [[| log entries] | e]; cbn [write_logs].
  - apply page_only_for_each. intros l. apply page_only_append.
  - unfold report_logs.
    repeat (apply page_only_bind; [apply page_only_append | intros _]).
    apply page_only_for_each. intros g. unfold session_lines.
    repeat (apply page_only_bind; [apply page_only_append | intros _]).
    apply page_only_bind; [| intros _; apply page_only_append].
    apply page_only_for_each. intros l. unfold log_line.
    destruct (Date_getTime (t l)); [apply page_only_append | constructor].
  - apply page_only_append.
Qed.

Lemma page_only_logs_body (extensionId : string) (params : LogParams)
  (p : page) :
  page_only (logs_body extensionId params p).
Proof.
  unfold Tools.logs_body. apply page_only_bind.
  - unfold navigate. apply page_only_try_catch; [| intros _];
      apply page_only_goto.
  - intros _. unfold Tools.present_logs. apply page_only_bind.
    + apply page_only_evaluate.
    + apply page_only_write_logs.
Qed.

Lemma page_only_access_body (extensionId : string) (p : page) :
  page_only (access_body extensionId p).
Proof.
  unfold access_body.
  assert (Hg : forall url a b, page_only (test_goto p url a b)).
  { intros url a b. unfold test_goto. apply page_only_try_catch.
    - apply page_only_bind; [apply page_only_goto | intros _; constructor].
    - intros _. constructor. }
  repeat (apply page_only_bind; [apply Hg | intros ?]).
  apply page_only_bind; [| intros ?; constructor].
  unfold test_storage. apply page_only_try_catch; [| intros _; constructor].
  apply page_only_bind; [apply page_only_goto | intros _].
  apply page_only_bind; [apply page_only_evaluate | intros s].
  destruct (success s); constructor.
Qed.

(** A program that only uses the page makes no call on the context. *)
Lemma page_only_calls {A} (m : prog idx page A) (w : W) :
  page_only m -> Forall page_event (calls (run h m w)).
Proof.
  intros Hm. revert w. induction Hm; intros w; cbn [run calls]; auto.
  - destruct (answer h (Goto p url o) w) as [r w1]. cbn [calls].
    constructor; [exact I | auto].
  - destruct (answer h (Evaluate p) w) as [r w1]. cbn [calls].
    constructor; [exact I | auto].
Qed.

(** The calls [all] of a run are: the opening of page [p], the calls of
    the inner block [body], which are navigations and evaluations only,
    and the calls of the [finally] block: the page is closed, and the
    selection is set when that call has returned (and not when it
    threw). *)
Definition ends_with_cleanup {A} (p : page) (newPageIdx originalPageIdx : idx)
  (body : outcome idx page A W) (all : list (event idx page)) : Prop :=
  let closed := answer h (ClosePage newPageIdx) (final body) in
  let restored := answer h (SetSelectedPageIdx originalPageIdx) (snd closed) in
  all = (EvNewPage (Ok p) :: calls body ++
         cleanup_calls newPageIdx originalPageIdx
                       (fst closed) (fst restored))%list /\
  Forall page_event (calls body).

(** For any context, once the temporary page is open, the run of either
    handler ends with the [finally] block, whatever its inner block
    did. *)
Theorem cleanup_follows_every_exit (extensionId : string) (params : LogParams)
  (w w1 : W) (p : page) :
  answer h NewPage w = (Ok p, w1) ->
  ends_with_cleanup p (selected_of h w1) (selected_of h w)
    (run h (logs_body extensionId params p) w1)
    (calls (run h (get_extension_logs extensionId params) w)) /\
  ends_with_cleanup p (selected_of h w1) (selected_of h w)
    (run h (access_body extensionId p) w1)
    (calls (run h (test_extension_access extensionId) w)).
Proof.
  intros H0. unfold ends_with_cleanup. cbv zeta. split.
  - pose proof (get_extension_logs_opened extensionId params w w1 p H0) as Hg.
    cbv zeta in Hg. rewrite Hg. cbn [calls]. clear Hg.
    split; [| apply page_only_calls, page_only_logs_body].
    pose proof (run_cleanup (selected_of h w1) (selected_of h w)
                  (final (run h (logs_body extensionId params p) w1))) as Hc.
    cbv zeta in Hc. rewrite Hc.
    destruct (fst (answer h (ClosePage (selected_of h w1)) _)); reflexivity.
  - pose proof (run_test_extension_access extensionId w) as Ht.
    cbv zeta in Ht. rewrite Ht. cbn [calls]. clear Ht.
    pose proof (access_protected_opened extensionId w w1 p H0) as Ha.
    cbv zeta in Ha. rewrite Ha. cbn [calls]. clear Ha.
    split; [| apply page_only_calls, page_only_access_body].
    pose proof (run_cleanup (selected_of h w1) (selected_of h w)
                  (final (run h (access_body extensionId p) w1))) as Hc.
    cbv zeta in Hc. rewrite Hc.
    destruct (fst (answer h (ClosePage (selected_of h w1)) _)); reflexivity.
Qed.

End WithWorld.
End ToolsFacts.

(** ** The handlers in a session *)

Module SessionFacts.
Import Tools ToolsFacts Session.

Lemma remove_at_last {A} (xs : list A) (x : A) :
  remove_at (List.length xs) (xs ++ [x]) = xs.
Proof.
  induction xs as [| y ys IH]; cbn; [reflexivity | now rewrite IH].
Qed.

Section WithDriver.

Variable d : driver.

(** Navigating and evaluating leave the session as it is. *)
Lemma page_only_session {A} (m : prog (option nat) nat A) (b : browser) :
  page_only (option nat) nat m ->
  sess (final (run (context d) m b)) = sess b.
Proof.
  intros Hm. revert b.
  induction Hm as [a | e | l k Hk IH | k Hk IH | p url o k Hk IH | p k Hk IH];
    intros b; cbn [run final]; auto.
  - cbn. rewrite IH. reflexivity.
  - cbn. rewrite IH. reflexivity.
Qed.

(** Opening a page, then closing it and selecting the page that was
    selected before, gives the session back. *)
Lemma cleanup_restores (s : session) (id : nat) (b : browser) :
  well_formed s ->
  sess b = newPage id s ->
  let fin := run (context d)
               (cleanup (Some (List.length (pages s))) (selected s)) b in
  sess (final fin) = s /\
  exists restored,
    calls fin = [EvClosePage (Some (List.length (pages s))) (Ok tt);
                 EvSetSelectedPageIdx (selected s) restored].
Proof.
  intros Hwf Hb fin. subst fin.
  pose proof (run_cleanup (option nat) nat browser (context d)
                (Some (List.length (pages s))) (selected s) b) as H.
  cbv zeta in H. rewrite H. clear H.
  destruct b as [sb cb]. cbn [sess] in Hb. subst sb.
  cbn [answer context respond sess clock].
  unfold closePage, newPage. cbn [valid_index pages selected].
  rewrite length_app. cbn [List.length].
  replace (List.length (pages s) <? List.length (pages s) + 1)%nat with true
    by (symmetry; apply Nat.ltb_lt; lia).
  rewrite remove_at_last. cbn [fst snd sess clock].
  unfold setSelectedPageIdx. cbn [pages selected].
  destruct s as [ps [i |]]; unfold well_formed in Hwf;
    cbn [pages selected] in *.
  - cbn [valid_index pages]. apply Nat.ltb_lt in Hwf. rewrite Hwf.
    cbn [fst snd sess final calls cleanup_calls]. split; [reflexivity |].
    eexists. reflexivity.
  - subst ps. cbn. split; [reflexivity |]. eexists. reflexivity.
Qed.

Variable Date_getTime : string -> option Z.
Variable Date_toISOString : Z -> string.

(** The run [o] from the browser [b] ends by closing the page at the
    index it got and then selecting the index read at the start, with
    nothing but navigations and evaluations since the page was opened;
    and it leaves the session as it was. *)
Definition closes_then_restores {A} (b : browser)
  (o : outcome (option nat) nat A browser) : Prop :=
  (exists used restored,
     calls o =
     (EvNewPage (Ok (clock b)) :: used ++
      [EvClosePage (Some (List.length (pages (sess b)))) (Ok tt);
       EvSetSelectedPageIdx (selected (sess b)) restored])%list /\
     Forall (page_event (option nat) nat) used) /\
  sess (final o) = sess b /\
  selected (sess (final o)) = selected (sess b).

(** C1.  In a well-formed session, when the temporary page opens, every
    run of either handler, however its inner block ends, closes the page
    and after that restores the selection to the index read before the
    page was opened; the selected index after the run is the one before
    it. *)
Theorem selection_is_restored (b : browser) (extensionId : string)
  (params : LogParams) :
  well_formed (sess b) ->
  opening d (clock b) = None ->
  closes_then_restores b
    (run (context d)
       (get_extension_logs Date_getTime Date_toISOString extensionId params) b)
  /\
  closes_then_restores b
    (run (context d) (test_extension_access extensionId) b).
Proof.
  intros Hwf Hopen.
  set (b1 := {| sess := newPage (clock b) (sess b); clock := S (clock b) |}).
  assert (H0 : answer (context d) NewPage b = (Ok (clock b), b1)).
  { cbn. rewrite Hopen. reflexivity. }
  assert (Hsel : selected_of (context d) b1 = Some (List.length (pages (sess b))))
    by reflexivity.
  assert (Hgoal :
    forall A (body : prog (option nat) nat A),
      page_only (option nat) nat body ->
      let ob := run (context d) body b1 in
      let fin := run (context d)
                   (cleanup (selected_of (context d) b1)
                            (selected_of (context d) b)) (final ob) in
      (exists used restored,
         (EvNewPage (Ok (clock b)) :: calls ob ++ calls fin)%list =
         (EvNewPage (Ok (clock b)) :: used ++
          [EvClosePage (Some (List.length (pages (sess b)))) (Ok tt);
           EvSetSelectedPageIdx (selected (sess b)) restored])%list /\
         Forall (page_event (option nat) nat) used) /\
      sess (final fin) = sess b /\
      selected (sess (final fin)) = selected (sess b)).
  { intros A body Hbody ob fin.
    assert (Hs : sess (final ob) = newPage (clock b) (sess b)).
    { subst ob. rewrite page_only_session by exact Hbody. reflexivity. }
    destruct (cleanup_restores (sess b) (clock b) (final ob) Hwf Hs)
      as [Hr [restored Hc]].
    subst fin. rewrite Hsel. cbn [selected_of context].
    split; [| split; [exact Hr | now rewrite Hr]].
    exists (calls ob), restored. rewrite Hc. split; [reflexivity |].
    subst ob. apply page_only_calls, Hbody. }
  unfold closes_then_restores. split.
  - pose proof (get_extension_logs_opened (option nat) nat browser (context d)
                  Date_getTime Date_toISOString extensionId params b b1
                  (clock b) H0) as Hg.
    cbv zeta in Hg. rewrite Hg. cbn [calls final].
    apply (Hgoal unit), page_only_logs_body.
  - pose proof (run_test_extension_access (option nat) nat browser (context d)
                  extensionId b) as Ht.
    cbv zeta in Ht. rewrite Ht. cbn [calls final]. clear Ht.
    pose proof (access_protected_opened (option nat) nat browser (context d)
                  extensionId b b1 (clock b) H0) as Ha.
    cbv zeta in Ha. rewrite Ha. cbn [calls final].
    apply (Hgoal (list string)), page_only_access_body.
Qed.

End WithDriver.
(** *** Scenarios *)

Definition sample_id : string := "abcdefghijklmnopabcdefghijklmnop".

(** Two pages are open and the second is selected; the driver has made
    twenty calls. *)
Definition sample_browser : browser :=
  {| sess := {| pages := [7; 8]; selected := Some 1 |}; clock := 20 |}.

(** The browser after the temporary page was opened, at a later time. *)
Definition opened_at (n : nat) : browser :=
  {| sess := newPage 20 (sess sample_browser); clock := n |}.

Definition env_with (stored : result (option (list ExtensionLog)))
  : ChromeEnv :=
  {| storage_local_get := fun _ => stored |}.

Definition timeout_message : string :=
  "Navigation timeout of 10000 ms exceeded".

(** The options page times out; everything else works, and the storage
    holds the sample entries. *)
Definition driver_recovering : driver :=
  {| opening := fun _ => None;
     navigation := fun _ url _ =>
       if String.eqb url (options_url sample_id) then Some timeout_message
       else None;
     evaluation := fun _ =>
       Ok (env_with (Ok (Some LogsFacts.stored_sample))) |}.

Definition storage_message : string :=
  "Cannot read properties of undefined (reading 'local')".

(** The page has no storage API. *)
Definition driver_without_storage : driver :=
  {| opening := fun _ => None;
     navigation := fun _ _ _ => None;
     evaluation := fun _ => Ok (env_with (Throw storage_message)) |}.

(** Nothing is stored under the log key. *)
Definition driver_without_logs : driver :=
  {| opening := fun _ => None;
     navigation := fun _ _ _ => None;
     evaluation := fun _ => Ok (env_with (Ok None)) |}.

Definition sample_logs_handler : prog (option nat) nat unit :=
  get_extension_logs IsoDate.getTime IsoDate.toISOString sample_id
    LogsFacts.background_params.

(** Section 8: the options page times out and the root loads.  The
    handler returns the entries, and the session is as before. *)
Example recovered_run :
  let o := run (context driver_recovering) sample_logs_handler sample_browser in
  completion o = Ok tt /\
  sess (final o) = sess sample_browser /\
  lines o =
  ["Found 3 log entries for extension abcdefghijklmnopabcdefghijklmnop";
   "";
   "Session: s2";
   JS.repeat rule_char 50;
   "2025-01-01T00:00:03.000Z [WARN ] background message";
   "2025-01-01T00:00:02.500Z [LOG  ] service_worker message";
   "";
   "Session: s1";
   JS.repeat rule_char 50;
   "2025-01-01T00:00:01.000Z [INFO ] background message";
   ""].
Proof. repeat split; reflexivity. Qed.

Lemma selection_is_restored_witness :
  well_formed (sess sample_browser) /\
  opening driver_recovering (clock sample_browser) = None /\
  closes_then_restores sample_browser
    (run (context driver_recovering) sample_logs_handler sample_browser) /\
  closes_then_restores sample_browser
    (run (context driver_recovering) (test_extension_access sample_id)
         sample_browser).
Proof.
  split; [cbn; lia |]. split; [reflexivity |].
  apply (selection_is_restored driver_recovering IsoDate.getTime
           IsoDate.toISOString sample_browser sample_id
           LogsFacts.background_params);
    [cbn; lia | reflexivity].
Defined.

Lemma navigation_falls_back_witness :
  answer (context driver_recovering) NewPage sample_browser
    = (Ok 20, opened_at 21) /\
  answer (context driver_recovering)
    (Goto 20 "chrome-extension://abcdefghijklmnopabcdefghijklmnop/options.html"
       {| waitUntil := Some "networkidle0"; timeout := 10000 |}) (opened_at 21)
    = (Throw timeout_message, opened_at 22) /\
  answer (context driver_recovering)
    (Goto 20 "chrome-extension://abcdefghijklmnopabcdefghijklmnop/"
       {| waitUntil := Some "networkidle0"; timeout := 10000 |}) (opened_at 22)
    = (Ok tt, opened_at 23) /\
  run (context driver_recovering) (navigate sample_id 20) (opened_at 21) =
  mkOutcome (Ok tt) (opened_at 23) []
    [EvGoto 20
       "chrome-extension://abcdefghijklmnopabcdefghijklmnop/options.html"
       {| waitUntil := Some "networkidle0"; timeout := 10000 |}
       (Throw timeout_message);
     EvGoto 20 "chrome-extension://abcdefghijklmnopabcdefghijklmnop/"
       {| waitUntil := Some "networkidle0"; timeout := 10000 |} (Ok tt)] /\
  lines (run (context driver_recovering) sample_logs_handler sample_browser) =
  ["Found 3 log entries for extension abcdefghijklmnopabcdefghijklmnop";
   "";
   "Session: s2";
   JS.repeat rule_char 50;
   "2025-01-01T00:00:03.000Z [WARN ] background message";
   "2025-01-01T00:00:02.500Z [LOG  ] service_worker message";
   "";
   "Session: s1";
   JS.repeat rule_char 50;
   "2025-01-01T00:00:01.000Z [INFO ] background message";
   ""].
Proof.
  split; [reflexivity |]. split; [reflexivity |]. split; [reflexivity |].
  destruct (navigation_falls_back (option nat) nat browser
              (context driver_recovering) IsoDate.getTime IsoDate.toISOString
              sample_id LogsFacts.background_params
              sample_browser (opened_at 21) (opened_at 22) (opened_at 23)
              20 timeout_message (Ok tt) eq_refl eq_refl eq_refl)
    as [Hn Hr].
  split; [exact Hn |].
  unfold sample_logs_handler. rewrite Hr. reflexivity.
Defined.

Lemma storage_failure_is_reported_witness :
  answer (context driver_without_storage) NewPage sample_browser
    = (Ok 20, opened_at 21) /\
  completion (run (context driver_without_storage) (navigate sample_id 20)
                  (opened_at 21)) = Ok tt /\
  answer (context driver_without_storage) (Evaluate 20) (opened_at 22)
    = (Ok (env_with (Throw storage_message)), opened_at 23) /\
  storage_local_get (env_with (Throw storage_message)) Logs.dev_logs_key
    = Throw storage_message /\
  lines (run (context driver_without_storage) sample_logs_handler
             sample_browser) =
  ["Error: Failed to access extension storage: " ++ storage_message].
Proof.
  split; [reflexivity |]. split; [reflexivity |]. split; [reflexivity |].
  split; [reflexivity |].
  destruct (storage_failure_is_reported (option nat) nat browser
              (context driver_without_storage) IsoDate.getTime
              IsoDate.toISOString sample_id LogsFacts.background_params
              sample_browser (opened_at 21) (opened_at 23) 20
              (env_with (Throw storage_message)) storage_message
              eq_refl eq_refl eq_refl eq_refl) as [_ H].
  unfold sample_logs_handler. rewrite H. reflexivity.
Defined.

Lemma no_logs_is_explained_witness :
  answer (context driver_without_logs) NewPage sample_browser
    = (Ok 20, opened_at 21) /\
  completion (run (context driver_without_logs) (navigate sample_id 20)
                  (opened_at 21)) = Ok tt /\
  answer (context driver_without_logs) (Evaluate 20) (opened_at 22)
    = (Ok (env_with (Ok None)), opened_at 23) /\
  storage_local_get (env_with (Ok None)) "__dev_logs" = Ok None /\
  lines (run (context driver_without_logs) sample_logs_handler
             sample_browser) =
  ["No logs found matching the specified criteria.";
   "";
   "This could mean:";
   "- The extension does not implement a dev log sink";
   "- No logs have been generated yet";
   "- The filter criteria are too restrictive"].
Proof.
  split; [reflexivity |]. split; [reflexivity |]. split; [reflexivity |].
  split; [reflexivity |].
  destruct (no_logs_is_explained (option nat) nat browser
              (context driver_without_logs) IsoDate.getTime
              IsoDate.toISOString sample_id LogsFacts.background_params
              sample_browser (opened_at 21) (opened_at 23) 20
              (env_with (Ok None)) None
              eq_refl eq_refl eq_refl eq_refl (or_introl eq_refl)) as [_ H].
  unfold sample_logs_handler. rewrite H. reflexivity.
Defined.

(** The page closes but the selection cannot be set again: a session
    with no page open. *)
Definition empty_browser : browser :=
  {| sess := {| pages := []; selected := None |}; clock := 0 |}.

Lemma cleanup_follows_every_exit_witness :
  answer (context driver_without_logs) NewPage empty_browser
    = (Ok 0, {| sess := newPage 0 (sess empty_browser); clock := 1 |}) /\
  calls (run (context driver_without_logs) sample_logs_handler empty_browser) =
  [EvNewPage (Ok 0);
   EvGoto 0 (options_url sample_id) (networkidle 10000) (Ok tt);
   EvEvaluate 0 (Ok (env_with (Ok None)));
   EvClosePage (Some 0) (Ok tt);
   EvSetSelectedPageIdx None (Throw index_error)].
Proof.
  split; [reflexivity |].
  destruct (cleanup_follows_every_exit (option nat) nat browser
              (context driver_without_logs) IsoDate.getTime
              IsoDate.toISOString sample_id LogsFacts.background_params
              empty_browser
              {| sess := newPage 0 (sess empty_browser); clock := 1 |} 0
              eq_refl) as [[H _] _].
  unfold sample_logs_handler. rewrite H. reflexivity.
Defined.

End SessionFacts.

(** ** The execution mutex *)

Module MutexFacts.
Import Mutex.

Lemma serial_app (cur : option nat) (l1 l2 : list (nat * action)) :
  serial cur (l1 ++ l2) = serial cur l1 && serial (holder_after cur l1) l2.
Proof.
  revert cur. induction l1 as [| [c a] l1 IH]; intros cur; cbn; [reflexivity |].
  destruct cur as [h |], a; cbn; try reflexivity; rewrite IH;
    try reflexivity; now rewrite andb_assoc.
Qed.

Lemma holder_after_app (cur : option nat) (l1 l2 : list (nat * action)) :
  holder_after cur (l1 ++ l2) = holder_after (holder_after cur l1) l2.
Proof.
  revert cur. induction l1 as [| [c a] l1 IH]; intros cur; cbn; [reflexivity |].
  destruct a; apply IH.
Qed.

Lemma started_app (l1 l2 : list (nat * action)) :
  started (l1 ++ l2) = (started l1 ++ started l2)%list.
Proof. unfold started. now rewrite filter_app, map_app. Qed.

(** What holds in every state the dispatcher can be in. *)
Record invariant (s : state) : Prop := mkInvariant {
  inv_holder : holder_after None (log s) = hd_error (running s);
  inv_single : List.length (running s) <= 1;
  inv_locked : locked s = negb (List.length (running s) =? 0)%nat;
  inv_idle : running s = [] -> queue s = [];
  inv_serial : serial None (log s) = true;
  inv_fifo : (started (log s) ++ queue s)%list = arrivals s
}.

Lemma invariant_initial : invariant initial.
Proof. constructor; cbn; auto. Qed.

Ltac fields :=
  cbn [locked queue running arrivals log List.length hd_error Nat.eqb negb].

Lemma invariant_step (s s' : state) :
  invariant s -> step s s' -> invariant s'.
Proof.
  intros [Hh Hs Hl Hi Hser Hf] Hstep.
  destruct Hstep as [c s Hnew | c s Hrun | c s Hrun].
  - unfold arrive. destruct (locked s) eqn:El.
    + constructor; fields.
      * exact Hh.
      * exact Hs.
      * exact Hl.
      * intros Hr. rewrite Hr in Hl. cbn in Hl. congruence.
      * exact Hser.
      * now rewrite app_assoc, Hf.
    + assert (Hr : running s = []).
      { destruct (running s); [reflexivity |]. cbn in Hl. congruence. }
      rewrite Hr in *. cbn in Hh.
      constructor; fields.
      * rewrite holder_after_app, Hh. reflexivity.
      * lia.
      * reflexivity.
      * intros Habs. discriminate.
      * rewrite serial_app, Hser, Hh. reflexivity.
      * rewrite started_app. rewrite (Hi eq_refl) in *.
        cbn [started filter snd map fst].
        rewrite app_nil_r in *. now rewrite Hf.
  - destruct (running s) as [| r [| r' rs]] eqn:Er; cbn in Hs;
      [destruct Hrun | | lia].
    destruct Hrun as [-> | []]. cbn in Hh.
    unfold await. constructor; fields; rewrite ?Er; fields.
    + rewrite holder_after_app, Hh. reflexivity.
    + lia.
    + exact Hl.
    + intros Habs. discriminate.
    + rewrite serial_app, Hser, Hh. cbn. now rewrite Nat.eqb_refl.
    + rewrite started_app. cbn [started filter snd map fst].
      now rewrite app_nil_r.
  - destruct (running s) as [| r [| r' rs]] eqn:Er; cbn in Hs;
      [destruct Hrun | | lia].
    destruct Hrun as [-> | []]. cbn in Hh.
    unfold finish. rewrite Er. unfold remove. cbn [filter].
    rewrite Nat.eqb_refl. cbn [negb].
    destruct (queue s) as [| next rest] eqn:Eq.
    + constructor; fields.
      * rewrite holder_after_app, Hh. reflexivity.
      * lia.
      * reflexivity.
      * reflexivity.
      * rewrite serial_app, Hser, Hh. cbn. now rewrite Nat.eqb_refl.
      * rewrite started_app. cbn [started filter snd map fst].
        rewrite !app_nil_r in *. exact Hf.
    + constructor; fields.
      * rewrite holder_after_app, Hh. reflexivity.
      * lia.
      * reflexivity.
      * intros Habs. discriminate.
      * rewrite serial_app, Hser, Hh. cbn. now rewrite Nat.eqb_refl.
      * rewrite started_app. cbn [started filter snd map fst].
        rewrite <- app_assoc. exact Hf.
Qed.

Lemma reachable_invariant (s : state) : reachable s -> invariant s.
Proof.
  induction 1 as [| s s' _ IH Hstep].
  - apply invariant_initial.
  - eapply invariant_step; eassumption.
Qed.

(** C8.  In every state the dispatcher can reach: at most one handler is
    running; the log is serial, so the actions of one call, from its
    start through its awaits to its end, are never mixed with those of
    another; the calls have started in the order of their arrival, and
    those still waiting are the later arrivals, in that order; the mutex
    is never free while a call waits; and when the running handler
    finishes, the call that has waited longest is the one that runs
    next. *)
Theorem handlers_never_interleave (s : state) :
  reachable s ->
  List.length (running s) <= 1 /\
  serial None (log s) = true /\
  holder_after None (log s) = hd_error (running s) /\
  (started (log s) ++ queue s)%list = arrivals s /\
  (running s = [] -> queue s = []) /\
  (forall c next rest,
     In c (running s) -> queue s = next :: rest ->
     running (finish c s) = [next] /\ queue (finish c s) = rest /\
     started (log (finish c s)) = (started (log s) ++ [next])%list).
Proof.
  intros Hr. destruct (reachable_invariant s Hr) as [Hh Hs Hl Hi Hser Hf].
  split; [exact Hs |]. split; [exact Hser |]. split; [exact Hh |].
  split; [exact Hf |]. split; [exact Hi |].
  intros c next rest Hc Hq. unfold finish. rewrite Hq.
  cbn [running queue log].
  destruct (running s) as [| r [| r' rs]] eqn:Er; cbn in Hs;
    [destruct Hc | | lia].
  destruct Hc as [-> | []].
  split; [unfold remove; cbn; now rewrite Nat.eqb_refl |].
  split; [reflexivity |]. rewrite started_app. reflexivity.
Qed.

(** Two calls arrive, the first awaits once and finishes. *)
Definition two_calls : state :=
  finish 1 (await 1 (arrive 2 (arrive 1 initial))).

Lemma two_calls_reachable : reachable two_calls.
Proof.
  unfold two_calls.
  eapply reach_step; [| apply step_finish; cbn; auto].
  eapply reach_step; [| apply step_await; cbn; auto].
  eapply reach_step; [| apply step_arrive; cbn; intuition discriminate].
  eapply reach_step; [apply reach_initial | apply step_arrive; cbn; auto].
Qed.

Example two_calls_log :
  log two_calls = [(1, Start); (1, Await); (1, Finish); (2, Start)] /\
  running two_calls = [2] /\ queue two_calls = [].
Proof. repeat split; reflexivity. Qed.

Lemma handlers_never_interleave_witness :
  reachable two_calls /\
  List.length (running two_calls) <= 1 /\
  serial None (log two_calls) = true.
Proof.
  split; [apply two_calls_reachable |].
  destruct (handlers_never_interleave two_calls two_calls_reachable)
    as [H1 [H2 _]].
  split; [exact H1 | exact H2].
Defined.

End MutexFacts.

(** ** More on src/utils/extension.ts *)

Module ExtensionUrlFacts.
Import ExtensionUtils.

Section WithURL.

Variable new_URL : string -> option URL.

Lemma classify_pathname_not_web (p : string) : classify_pathname p <> "web".
Proof.
  unfold classify_pathname.
  repeat match goal with
         | |- context [if ?b then _ else _] => destruct b
         end; discriminate.
Qed.

(** The three functions agree on what an extension URL is.  A string
    without the prefix is [web] for [getExtensionContextType] and is
    refused by [extractExtensionId] with its own error, and conversely.
    On a string with the prefix, [extractExtensionId] returns an id
    exactly when [getExtensionContextType] returns a type, which is then
    not [web], and exactly when [isSameExtension] holds of the string and
    itself; and both throw the error of the URL constructor on the same
    strings. *)
Theorem extension_urls_are_recognised_alike (url : string) :
  (getExtensionContextType new_URL url = Ok "web" <->
   JS.startsWith url "chrome-extension://" = false) /\
  (extractExtensionId new_URL url = Throw "Not a chrome-extension URL" <->
   JS.startsWith url "chrome-extension://" = false) /\
  ((exists id, extractExtensionId new_URL url = Ok id) <->
   (exists c, getExtensionContextType new_URL url = Ok c /\ c <> "web")) /\
  ((exists id, extractExtensionId new_URL url = Ok id) <->
   isSameExtension new_URL url url = Ok true) /\
  (extractExtensionId new_URL url = Throw invalid_url_message <->
   getExtensionContextType new_URL url = Throw invalid_url_message).
Proof.
  unfold getExtensionContextType, extractExtensionId, isSameExtension,
    extractExtensionId, construct_URL, invalid_url_message.
  destruct (JS.startsWith url "chrome-extension://") eqn:Hp; cbn [negb orb].
  - destruct (new_URL url) as [u |] eqn:Hu.
    + repeat split; try discriminate; try congruence.
      * intros H. injection H as H. now apply classify_pathname_not_web in H.
      * intros _. eexists. split; [reflexivity | apply classify_pathname_not_web].
      * intros _. eexists. reflexivity.
      * intros _. now rewrite String.eqb_refl.
      * intros _. eexists. reflexivity.
    + repeat split; try discriminate; try congruence.
      * intros [id H]. discriminate.
      * intros [c [H _]]. discriminate.
      * intros [id H]. discriminate.
  - repeat split; try discriminate; try congruence.
    + intros [id H]. discriminate.
    + intros [c [H Hc]]. injection H as H. congruence.
    + intros [id H]. discriminate.
Qed.

(** [isSameExtension] holds of two strings exactly when
    [extractExtensionId] returns the same id for both. *)
Lemma isSameExtension_same_id (url1 url2 : string) :
  isSameExtension new_URL url1 url2 = Ok true <->
  exists id, extractExtensionId new_URL url1 = Ok id /\
             extractExtensionId new_URL url2 = Ok id.
Proof.
  unfold isSameExtension.
  destruct (JS.startsWith url1 "chrome-extension://") eqn:H1;
    destruct (JS.startsWith url2 "chrome-extension://") eqn:H2; cbn [negb orb].
  - destruct (extractExtensionId new_URL url1) as [id1 | e1];
      destruct (extractExtensionId new_URL url2) as [id2 | e2];
      try (split; [discriminate | intros [id [Ha Hb]]; discriminate]).
    split.
    + intros H. injection H as H. apply String.eqb_eq in H. subst.
      eexists. split; reflexivity.
    + intros [id [Ha Hb]]. injection Ha as <-. injection Hb as <-.
      now rewrite String.eqb_refl.
  - split; [discriminate |]. intros [id [_ Hb]].
    unfold extractExtensionId in Hb. rewrite H2 in Hb. discriminate.
  - split; [discriminate |]. intros [id [Ha _]].
    unfold extractExtensionId in Ha. rewrite H1 in Ha. discriminate.
  - split; [discriminate |]. intros [id [Ha _]].
    unfold extractExtensionId in Ha. rewrite H1 in Ha. discriminate.
Qed.

(** [isSameExtension] is transitive, and it holds exactly of the pairs
    for which [extractExtensionId] returns one and the same id. *)
Theorem isSameExtension_transitive (url1 url2 url3 : string) :
  isSameExtension new_URL url1 url2 = Ok true ->
  isSameExtension new_URL url2 url3 = Ok true ->
  isSameExtension new_URL url1 url3 = Ok true /\
  exists id, extractExtensionId new_URL url1 = Ok id /\
             extractExtensionId new_URL url2 = Ok id /\
             extractExtensionId new_URL url3 = Ok id.
Proof.
  intros H12 H23.
  apply isSameExtension_same_id in H12. destruct H12 as [id [Ha Hb]].
  apply isSameExtension_same_id in H23. destruct H23 as [id' [Hb' Hc]].
  assert (id' = id) by congruence. subst id'.
  split.
  - apply isSameExtension_same_id. exists id. split; assumption.
  - exists id. repeat split; assumption.
Qed.

End WithURL.

Local Abbreviation sample_id := SessionFacts.sample_id.

Lemma isSameExtension_transitive_witness :
  isSameExtension Url.new_URL (Tools.options_url sample_id)
                  (Tools.manifest_url sample_id) = Ok true /\
  isSameExtension Url.new_URL (Tools.manifest_url sample_id)
                  (Tools.root_url sample_id) = Ok true /\
  isSameExtension Url.new_URL (Tools.options_url sample_id)
                  (Tools.root_url sample_id) = Ok true.
Proof.
  split; [reflexivity |]. split; [reflexivity |].
  apply (isSameExtension_transitive Url.new_URL (Tools.options_url sample_id)
           (Tools.manifest_url sample_id) (Tools.root_url sample_id));
    reflexivity.
Defined.

End ExtensionUrlFacts.

(** ** More on the in-page script of get_extension_logs *)

Module LogsScriptFacts.
Import Logs LogsFacts.

Lemma firstn_skipn_sorted {A} (R : A -> A -> Prop) (n : nat) (l : list A) :
  StronglySorted R l ->
  forall x y, In x (firstn n l) -> In y (skipn n l) -> R x y.
Proof.
  intros Hs. revert n. induction Hs as [| a l Hs IH Ha]; intros [| n] x y;
    cbn; try tauto.
  intros [<- | Hx] Hy.
  - eapply Forall_forall in Ha; [exact Ha |].
    rewrite <- (firstn_skipn n l). apply in_or_app. now right.
  - eapply IH; eassumption.
Qed.

Lemma filter_partition {A} (f : A -> bool) (l : list A) :
  Permutation l (filter f l ++ filter (fun x => negb (f x)) l).
Proof.
  induction l as [| a l IH]; cbn; [constructor |].
  destruct (f a); cbn.
  - now constructor.
  - eapply Permutation_trans; [apply perm_skip, IH |].
    apply Permutation_middle.
Qed.

Lemma toInteger_nonneg (q : Q) : (0 <= q)%Q -> (0 <= JS.toInteger q)%Z.
Proof.
  destruct q as [a d]. unfold Qle, JS.toInteger. cbn. intros H.
  apply Z.quot_pos; lia.
Qed.

Lemma toInteger_mono (n m : Q) :
  (0 <= n)%Q -> (n <= m)%Q -> (JS.toInteger n <= JS.toInteger m)%Z.
Proof.
  intros H0 Hnm.
  assert (Hm : (0 <= m)%Q) by (eapply Qle_trans; eassumption).
  destruct n as [a b], m as [c d]. unfold Qle, JS.toInteger in *. cbn in *.
  rewrite !Z.quot_div_nonneg by lia.
  apply Z.div_le_lower_bound; [lia |].
  pose proof (Z.mul_div_le a (Zpos b) ltac:(lia)) as Hab.
  assert (Hbd : (Zpos b * (Zpos d * (a / Zpos b)) <= Zpos b * c)%Z) by nia.
  nia.
Qed.

Section WithDate.

Variable Date_getTime : string -> option Z.

Local Abbreviation sort_logs := (sort_logs Date_getTime).
Local Abbreviation select_logs := (select_logs Date_getTime).
Local Abbreviation apply_filters := (apply_filters Date_getTime).
Local Abbreviation dated := (dated Date_getTime).
Local Abbreviation not_older := (not_older Date_getTime).
Local Abbreviation at_or_after := (at_or_after Date_getTime).

(** An entry passes the filters that the parameters switch on. *)
Definition passes (p : LogParams) (log : ExtensionLog) : Prop :=
  (forall s, since p = Some s -> ~ (s == 0)%Q -> at_or_after s log) /\
  (forall s, sessionId p = Some s -> s <> "" -> sid log = s) /\
  (contextType p <> "all" -> retained_by (contextType p) log = true) /\
  (logLevel p <> "all" -> level log = logLevel p).

Definition passesb (p : LogParams) (log : ExtensionLog) : bool :=
  match since_given p with
  | Some s => not_before Date_getTime s log
  | None => true
  end &&
  match sessionId_given p with
  | Some s => same_session s log
  | None => true
  end &&
  (if negb (String.eqb (contextType p) "all")
   then context_matches (contextType p) log else true) &&
  (if negb (String.eqb (logLevel p) "all")
   then level_matches (logLevel p) log else true).

Lemma filter_filter {A} (f g : A -> bool) (l : list A) :
  filter f (filter g l) = filter (fun x => g x && f x) l.
Proof.
  induction l as [| a l IH]; cbn; [reflexivity |].
  destruct (g a); cbn; [destruct (f a) |]; now rewrite IH.
Qed.

Lemma filter_all {A} (l : list A) : filter (fun _ => true) l = l.
Proof. induction l as [| a l IH]; cbn; [reflexivity | now rewrite IH]. Qed.

Lemma optional_filter {A X} (o : option X) (f : X -> A -> bool) (l : list A) :
  match o with Some s => filter (f s) l | None => l end =
  filter (fun x => match o with Some s => f s x | None => true end) l.
Proof. destruct o; [reflexivity | symmetry; apply filter_all]. Qed.

Lemma guarded_filter {A} (b : bool) (f : A -> bool) (l : list A) :
  (if b then filter f l else l) = filter (fun x => if b then f x else true) l.
Proof. destruct b; [reflexivity | symmetry; apply filter_all]. Qed.

(** The four filters in a row are one filter. *)
Lemma apply_filters_passesb (p : LogParams) (l : list ExtensionLog) :
  apply_filters p l = filter (passesb p) l.
Proof.
  unfold Logs.apply_filters, filter_level, filter_context, filter_session,
    filter_since.
  rewrite (optional_filter (since_given p) (not_before Date_getTime)).
  rewrite (optional_filter (sessionId_given p) same_session).
  rewrite !guarded_filter, !filter_filter.
  apply filter_ext. intros x. unfold passesb. now rewrite !andb_assoc.
Qed.

Lemma passesb_passes (p : LogParams) (log : ExtensionLog) :
  passesb p log = true <-> passes p log.
Proof.
  unfold passesb, passes, since_given, sessionId_given.
  rewrite !andb_true_iff. split.
  - intros [[[H1 H2] H3] H4]. repeat split.
    + intros s Hs Hz. rewrite Hs in H1.
      destruct (Qeq_bool s 0) eqn:E;
        [apply Qeq_bool_eq in E; contradiction |].
      unfold not_before in H1. unfold LogsFacts.at_or_after.
      destruct (Date_getTime (t log)) as [ms |]; [| discriminate].
      exists ms. split; [reflexivity | apply Qle_bool_imp_le, H1].
    + intros s Hs Hne. rewrite Hs in H2.
      apply String.eqb_neq in Hne. rewrite Hne in H2.
      apply String.eqb_eq, H2.
    + intros Hc. apply String.eqb_neq in Hc. rewrite Hc in H3. cbn in H3.
      now rewrite <- context_matches_retained.
    + intros Hl. apply String.eqb_neq in Hl. rewrite Hl in H4. cbn in H4.
      apply String.eqb_eq, H4.
  - intros [H1 [H2 [H3 H4]]]. repeat split.
    + destruct (since p) as [s |]; [| reflexivity].
      destruct (Qeq_bool s 0) eqn:E; [reflexivity |].
      apply Qeq_bool_neq in E. destruct (H1 s eq_refl E) as [ms [Hms Hle]].
      unfold not_before. rewrite Hms. apply Qle_bool_iff, Hle.
    + destruct (sessionId p) as [s |]; [| reflexivity].
      destruct (String.eqb s "") eqn:E; [reflexivity |].
      apply String.eqb_neq in E. unfold same_session.
      apply String.eqb_eq, (H2 s eq_refl E).
    + destruct (String.eqb (contextType p) "all") eqn:E; [reflexivity |].
      apply String.eqb_neq in E. cbn.
      rewrite context_matches_retained. apply H3, E.
    + destruct (String.eqb (logLevel p) "all") eqn:E; [reflexivity |].
      apply String.eqb_neq in E. cbn. unfold level_matches.
      apply String.eqb_eq, H4, E.
Qed.

(** Every entry the script returns is a stored entry that passes every
    filter switched on by the parameters (time, session, context and
    level); and when the stored list is no longer than [maxEntries], the
    script returns every such entry. *)
Theorem script_returns_the_matching_entries (p : LogParams)
  (stored : list ExtensionLog) :
  (forall log, In log (select_logs p stored) ->
     In log stored /\ passes p log) /\
  ((Z.of_nat (List.length stored) <= JS.toInteger (maxEntries p))%Z ->
   forall log, In log stored -> passes p log -> In log (select_logs p stored)).
Proof.
  split.
  - intros log H. split; [eapply select_logs_incl, H |].
    apply select_logs_filtered in H. rewrite apply_filters_passesb in H.
    apply filter_In in H. apply passesb_passes. tauto.
  - intros Hm log Hin Hp. unfold Logs.select_logs.
    rewrite slice0_all.
    + eapply Permutation_in; [apply sort_logs_perm |].
      rewrite apply_filters_passesb. apply filter_In.
      split; [exact Hin | apply passesb_passes, Hp].
    + rewrite <- (Permutation_length (sort_logs_perm _ _)).
      rewrite apply_filters_passesb.
      pose proof (filter_length_le (passesb p) stored). lia.
Qed.

(** The script returns no entry more often than it is stored: the stored
    list is the returned list and the entries left out, reordered. *)
Theorem script_returns_a_selection (p : LogParams) (stored : list ExtensionLog) :
  exists left_out,
    Permutation stored (select_logs p stored ++ left_out).
Proof.
  unfold Logs.select_logs, JS.slice0.
  set (k := Z.to_nat _).
  exists (skipn k (sort_logs (apply_filters p stored)) ++
          filter (fun x => negb (passesb p x)) stored)%list.
  rewrite app_assoc, firstn_skipn.
  eapply Permutation_trans; [apply (filter_partition (passesb p)) |].
  apply Permutation_app_tail. rewrite <- apply_filters_passesb.
  apply sort_logs_perm.
Qed.

Lemma select_logs_length (p : LogParams) (stored : list ExtensionLog) :
  (0 <= maxEntries p)%Q ->
  Z.of_nat (List.length (select_logs p stored)) =
    Z.min (JS.toInteger (maxEntries p))
          (Z.of_nat (List.length (apply_filters p stored))).
Proof.
  intros Hm. pose proof (toInteger_nonneg _ Hm) as H0.
  unfold Logs.select_logs, JS.slice0.
  apply Z.ltb_ge in H0. rewrite H0. apply Z.ltb_ge in H0.
  rewrite (Permutation_length (sort_logs_perm Date_getTime
                                 (apply_filters p stored))).
  rewrite length_firstn. lia.
Qed.

(** With a [maxEntries] that is not negative, the script returns as many
    entries as match, up to [maxEntries] rounded down, whether or not
    the entries have valid times; where the matching entries are dated,
    the entries it returns are the most recent ones: none of them is
    older than a matching entry it leaves out. *)
Theorem truncation_keeps_the_most_recent (p : LogParams)
  (stored : list ExtensionLog) :
  (0 <= maxEntries p)%Q ->
  Z.of_nat (List.length (select_logs p stored)) =
    Z.min (JS.toInteger (maxEntries p))
          (Z.of_nat (List.length (apply_filters p stored))) /\
  (Forall dated (apply_filters p stored) ->
   exists left_out,
     Permutation (apply_filters p stored) (select_logs p stored ++ left_out) /\
     forall x y, In x (select_logs p stored) -> In y left_out -> not_older x y).
Proof.
  intros Hm. split; [apply select_logs_length, Hm |].
  intros Hd. pose proof (toInteger_nonneg _ Hm) as H0.
  unfold Logs.select_logs, JS.slice0.
  apply Z.ltb_ge in H0. rewrite H0. apply Z.ltb_ge in H0.
  set (sorted := sort_logs (apply_filters p stored)).
  set (k := Z.to_nat (Z.min (JS.toInteger (maxEntries p))
                            (Z.of_nat (List.length sorted)))).
  exists (skipn k sorted). split.
  - rewrite firstn_skipn. apply sort_logs_perm.
  - apply firstn_skipn_sorted. apply sort_logs_sorted, Hd.
Qed.

(** The parameters with another [maxEntries]. *)
Definition with_maxEntries (p : LogParams) (n : Q) : LogParams :=
  {| since := since p; sessionId := sessionId p; maxEntries := n;
     contextType := contextType p; logLevel := logLevel p |}.

Lemma firstn_le_prefix {A} (a b : nat) (l : list A) :
  a <= b -> firstn b l = (firstn a l ++ firstn (b - a) (skipn a l))%list.
Proof.
  revert b l. induction a as [| a IH]; intros b l Hab.
  - cbn. now rewrite Nat.sub_0_r.
  - destruct b as [| b]; [lia |]. destruct l as [| x l]; cbn.
    + now rewrite firstn_nil.
    + f_equal. apply IH. lia.
Qed.

(** Raising [maxEntries] only adds entries at the end: the list returned
    for the smaller maximum is the beginning of the list returned for the
    larger one. *)
Theorem larger_maximum_extends (p : LogParams) (n m : Q)
  (stored : list ExtensionLog) :
  (0 <= n)%Q -> (n <= m)%Q ->
  exists more,
    select_logs (with_maxEntries p m) stored =
    (select_logs (with_maxEntries p n) stored ++ more)%list.
Proof.
  intros H0 Hnm.
  assert (Hm : (0 <= m)%Q) by (eapply Qle_trans; eassumption).
  pose proof (toInteger_nonneg _ H0) as Hn0.
  pose proof (toInteger_nonneg _ Hm) as Hm0.
  pose proof (toInteger_mono _ _ H0 Hnm) as Hle.
  unfold Logs.select_logs, JS.slice0.
  change (maxEntries (with_maxEntries p m)) with m.
  change (maxEntries (with_maxEntries p n)) with n.
  change (apply_filters (with_maxEntries p m) stored)
    with (apply_filters p stored).
  change (apply_filters (with_maxEntries p n) stored)
    with (apply_filters p stored).
  apply Z.ltb_ge in Hn0, Hm0. rewrite Hn0, Hm0. apply Z.ltb_ge in Hn0, Hm0.
  set (sorted := sort_logs (apply_filters p stored)).
  eexists. apply firstn_le_prefix. lia.
Qed.

Lemma filter_id {A} (f : A -> bool) (l : list A) :
  (forall x, In x l -> f x = true) -> filter f l = l.
Proof.
  induction l as [| a l IH]; cbn; intros H; [reflexivity |].
  rewrite (H a) by now left. f_equal. apply IH. intros x Hx. apply H. now right.
Qed.

Lemma sort_logs_sorted_id (l : list ExtensionLog) :
  StronglySorted not_older l -> sort_logs l = l.
Proof.
  induction 1 as [| a l Hs IH Ha]; cbn; [reflexivity |].
  rewrite IH. destruct l as [| b l]; [reflexivity |]. cbn.
  apply Forall_inv in Ha. unfold LogsFacts.not_older in Ha.
  unfold sort_compare, compare_logs.
  destruct (Date_getTime (t a)) as [ta |]; [| contradiction].
  destruct (Date_getTime (t b)) as [tb |]; [| contradiction].
  replace (tb - ta <=? 0)%Z with true by (symmetry; apply Z.leb_le; lia).
  reflexivity.
Qed.

(** Running the script on what it returned, with the same parameters,
    returns the same list again (where the matching entries are dated and
    [maxEntries] is not negative). *)
Theorem script_is_idempotent (p : LogParams) (stored : list ExtensionLog) :
  (0 <= maxEntries p)%Q ->
  Forall dated (apply_filters p stored) ->
  select_logs p (select_logs p stored) = select_logs p stored.
Proof.
  intros Hm Hd.
  assert (Hs : StronglySorted not_older (select_logs p stored)).
  { unfold Logs.select_logs, JS.slice0.
    apply firstn_sorted, sort_logs_sorted, Hd. }
  assert (Hf : apply_filters p (select_logs p stored) = select_logs p stored).
  { rewrite apply_filters_passesb. apply filter_id. intros x Hx.
    apply select_logs_filtered in Hx. rewrite apply_filters_passesb in Hx.
    apply filter_In in Hx. tauto. }
  pose proof (select_logs_length p stored Hm) as Hlen.
  unfold Logs.select_logs at 1. rewrite Hf, (sort_logs_sorted_id _ Hs).
  apply slice0_all. lia.
Qed.

End WithDate.

Lemma sample_dated :
  Forall (dated IsoDate.getTime)
    (Logs.apply_filters IsoDate.getTime background_params stored_sample).
Proof. repeat constructor; eexists; reflexivity. Qed.

(** An entry without a valid time among the sample: the count holds all
    the same. *)
Definition undated_among : list ExtensionLog :=
  entry "background" "info" "s3" "not a date" :: stored_sample.

Lemma truncation_keeps_the_most_recent_witness :
  (0 <= maxEntries (with_maxEntries background_params 2))%Q /\
  Forall (dated IsoDate.getTime)
    (Logs.apply_filters IsoDate.getTime
       (with_maxEntries background_params 2) stored_sample) /\
  Z.of_nat (List.length
    (Logs.select_logs IsoDate.getTime
       (with_maxEntries background_params 2) stored_sample)) = 2%Z /\
  Z.of_nat (List.length
    (Logs.select_logs IsoDate.getTime
       (with_maxEntries background_params 2) undated_among)) = 2%Z /\
  exists left_out,
    Permutation
      (Logs.apply_filters IsoDate.getTime
         (with_maxEntries background_params 2) stored_sample)
      (Logs.select_logs IsoDate.getTime
         (with_maxEntries background_params 2) stored_sample ++ left_out) /\
    forall x y,
      In x (Logs.select_logs IsoDate.getTime
              (with_maxEntries background_params 2) stored_sample) ->
      In y left_out -> not_older IsoDate.getTime x y.
Proof.
  assert (H0 : (0 <= maxEntries (with_maxEntries background_params 2))%Q)
    by discriminate.
  split; [exact H0 |]. split; [exact sample_dated |].
  destruct (truncation_keeps_the_most_recent IsoDate.getTime
              (with_maxEntries background_params 2) stored_sample H0)
    as [H Hrecent].
  destruct (truncation_keeps_the_most_recent IsoDate.getTime
              (with_maxEntries background_params 2) undated_among H0)
    as [Hu _].
  split; [rewrite H; reflexivity |].
  split; [rewrite Hu; reflexivity |].
  exact (Hrecent sample_dated).
Defined.

Lemma larger_maximum_extends_witness :
  (0 <= 1)%Q /\ (1 <= 2)%Q /\
  exists more,
    Logs.select_logs IsoDate.getTime
      (with_maxEntries background_params 2) stored_sample =
    (Logs.select_logs IsoDate.getTime
       (with_maxEntries background_params 1) stored_sample ++ more)%list.
Proof.
  assert (H0 : (0 <= 1)%Q) by discriminate.
  assert (H1 : (1 <= 2)%Q) by discriminate.
  split; [exact H0 |]. split; [exact H1 |].
  exact (larger_maximum_extends IsoDate.getTime background_params 1 2
           stored_sample H0 H1).
Defined.

Lemma script_is_idempotent_witness :
  (0 <= maxEntries background_params)%Q /\
  Logs.select_logs IsoDate.getTime background_params
    (Logs.select_logs IsoDate.getTime background_params stored_sample) =
  Logs.select_logs IsoDate.getTime background_params stored_sample.
Proof.
  assert (H0 : (0 <= maxEntries background_params)%Q) by discriminate.
  split; [exact H0 |].
  exact (script_is_idempotent IsoDate.getTime background_params stored_sample
           H0 sample_dated).
Defined.

Lemma script_returns_the_matching_entries_witness :
  (Z.of_nat (List.length stored_sample) <=
   JS.toInteger (maxEntries background_params))%Z /\
  passes IsoDate.getTime background_params
    (entry "service_worker" "log" "s2" "2025-01-01T00:00:02.500Z") /\
  In (entry "service_worker" "log" "s2" "2025-01-01T00:00:02.500Z")
     (Logs.select_logs IsoDate.getTime background_params stored_sample) /\
  ~ In (entry "options" "error" "s1" "2025-01-01T00:00:02.000Z")
       (Logs.select_logs IsoDate.getTime background_params stored_sample).
Proof.
  assert (Hm : (Z.of_nat (List.length stored_sample) <=
                JS.toInteger (maxEntries background_params))%Z)
    by (vm_compute; discriminate).
  assert (Hp : passes IsoDate.getTime background_params
                 (entry "service_worker" "log" "s2" "2025-01-01T00:00:02.500Z")).
  { unfold passes. cbn. repeat split; try discriminate; congruence. }
  destruct (script_returns_the_matching_entries IsoDate.getTime
              background_params stored_sample) as [Hsound Hcomplete].
  split; [exact Hm |]. split; [exact Hp |]. split.
  - apply (Hcomplete Hm); [cbn; tauto | exact Hp].
  - intros Hin. destruct (Hsound _ Hin) as [_ [_ [_ [Hc _]]]].
    specialize (Hc ltac:(discriminate)). discriminate Hc.
Defined.

End LogsScriptFacts.

(** ** The grouping of entries by session *)

Module GroupingFacts.
Import Logs Tools.

(** The distinct elements of a list, in the order of their first
    occurrence. *)
Fixpoint first_occurrences (l : list string) : list string :=
  match l with
  | [] => []
  | x :: r => x :: filter (fun y => negb (String.eqb y x)) (first_occurrences r)
  end.

Lemma first_occurrences_In (l : list string) (k : string) :
  In k (first_occurrences l) <-> In k l.
Proof.
  induction l as [| x l IH]; cbn; [tauto |].
  rewrite filter_In, IH. destruct (String.eqb_spec k x) as [-> | Hne].
  - tauto.
  - cbn. split; [tauto |]. intros [H | H]; [congruence | tauto].
Qed.

Lemma first_occurrences_NoDup (l : list string) : NoDup (first_occurrences l).
Proof.
  induction l as [| x l IH]; cbn; constructor.
  - rewrite filter_In. intros [_ H]. now rewrite String.eqb_refl in H.
  - now apply NoDup_filter.
Qed.

Lemma first_occurrences_snoc (l : list string) (k : string) :
  first_occurrences (l ++ [k]) =
  if existsb (String.eqb k) l then first_occurrences l
  else (first_occurrences l ++ [k])%list.
Proof.
  induction l as [| x l IH]; cbn; [reflexivity |].
  rewrite IH. destruct (String.eqb_spec k x) as [-> | Hne]; cbn.
  - destruct (existsb (String.eqb x) l); [reflexivity |].
    rewrite filter_app. cbn. rewrite String.eqb_refl. cbn.
    now rewrite app_nil_r.
  - destruct (existsb (String.eqb k) l); [reflexivity |].
    rewrite filter_app. cbn.
    apply String.eqb_neq in Hne. now rewrite Hne.
Qed.

Lemma group_by_session_snoc (l : list ExtensionLog) (x : ExtensionLog) :
  group_by_session (l ++ [x]) = add_to_session x (group_by_session l).
Proof. unfold group_by_session. now rewrite fold_left_app. Qed.

(** The groups a list of entries is split into: for each session id, in
    the order of first occurrence, the entries of that session. *)
Definition grouped (keys : list string) (l : list ExtensionLog)
  : list (string * list ExtensionLog) :=
  map (fun s => (s, filter (same_session s) l)) keys.

Lemma add_to_session_new (x : ExtensionLog) (keys : list string)
  (l : list ExtensionLog) :
  ~ In (sid x) keys ->
  add_to_session x (grouped keys l) = (grouped keys l ++ [(sid x, [x])])%list.
Proof.
  unfold grouped.
  induction keys as [| s keys IH]; cbn; intros H; [reflexivity |].
  destruct (String.eqb_spec s (sid x)) as [He | Hne]; [tauto |].
  f_equal. apply IH. tauto.
Qed.

Lemma grouped_snoc_other (x : ExtensionLog) (keys : list string)
  (l : list ExtensionLog) :
  ~ In (sid x) keys -> grouped keys (l ++ [x]) = grouped keys l.
Proof.
  intros H. unfold grouped. apply map_ext_in. intros s Hs.
  rewrite filter_app. cbn. unfold same_session.
  destruct (String.eqb_spec (sid x) s) as [He | Hne];
    [subst s; tauto |].
  now rewrite app_nil_r.
Qed.

Lemma add_to_session_old (x : ExtensionLog) (keys : list string)
  (l : list ExtensionLog) :
  NoDup keys -> In (sid x) keys ->
  add_to_session x (grouped keys l) = grouped keys (l ++ [x]).
Proof.
  induction keys as [| s keys IH]; intros Hn H; [destruct H |].
  inversion Hn as [| ? ? Hs Hn']; subst.
  unfold grouped in *. cbn [map add_to_session sid].
  destruct (String.eqb_spec s (sid x)) as [He | Hne].
  - subst s. f_equal.
    + f_equal. rewrite filter_app. cbn. unfold same_session.
      now rewrite String.eqb_refl.
    + symmetry. apply (grouped_snoc_other x keys l), Hs.
  - f_equal.
    + f_equal. rewrite filter_app. cbn. unfold same_session.
      destruct (String.eqb_spec (sid x) s); [congruence |].
      now rewrite app_nil_r.
    + apply IH; [exact Hn' |]. destruct H; [congruence | assumption].
Qed.

Lemma existsb_sid (x : ExtensionLog) (l : list ExtensionLog) :
  existsb (String.eqb (sid x)) (map sid l) = true <->
  In (sid x) (first_occurrences (map sid l)).
Proof.
  rewrite first_occurrences_In, existsb_exists. split.
  - intros [k [Hk He]]. apply String.eqb_eq in He. now subst.
  - intros H. exists (sid x). split; [exact H | apply String.eqb_refl].
Qed.

Lemma filter_no_session (x : ExtensionLog) (l : list ExtensionLog) :
  ~ In (sid x) (map sid l) -> filter (same_session (sid x)) l = [].
Proof.
  induction l as [| y l IH]; cbn; intros Hn; [reflexivity |].
  unfold same_session at 1.
  destruct (String.eqb_spec (sid y) (sid x)) as [He | Hne]; [tauto |].
  apply IH. tauto.
Qed.

Lemma grouped_new_key (x : ExtensionLog) (keys : list string)
  (l : list ExtensionLog) :
  ~ In (sid x) keys -> ~ In (sid x) (map sid l) ->
  grouped (keys ++ [sid x]) (l ++ [x]) =
  (grouped keys l ++ [(sid x, [x])])%list.
Proof.
  intros Hk Hl. unfold grouped. rewrite map_app. cbn [map].
  fold (grouped keys (l ++ [x])). fold (grouped keys l).
  rewrite grouped_snoc_other by exact Hk. f_equal. f_equal. f_equal.
  rewrite filter_app, filter_no_session by exact Hl. cbn.
  unfold same_session. now rewrite String.eqb_refl.
Qed.

Lemma group_by_session_grouped (logs : list ExtensionLog) :
  group_by_session logs = grouped (first_occurrences (map sid logs)) logs /\
  NoDup (map fst (group_by_session logs)).
Proof.
  assert (H : group_by_session logs =
              grouped (first_occurrences (map sid logs)) logs).
  { induction logs as [| x l IH] using rev_ind; [reflexivity |].
    rewrite group_by_session_snoc, IH, map_app. cbn [map].
    rewrite first_occurrences_snoc.
    destruct (existsb (String.eqb (sid x)) (map sid l)) eqn:E.
    - apply add_to_session_old; [apply first_occurrences_NoDup |].
      now apply existsb_sid.
    - assert (Hn : ~ In (sid x) (first_occurrences (map sid l))).
      { intros Hin. apply existsb_sid in Hin. congruence. }
      rewrite add_to_session_new by exact Hn.
      symmetry. apply grouped_new_key; [exact Hn |].
      now rewrite <- first_occurrences_In. }
  split; [exact H |].
  rewrite H. unfold grouped. rewrite map_map. cbn. rewrite map_id.
  apply first_occurrences_NoDup.
Qed.

(** The loop over [logsBySession] builds one group per session id, in the
    order in which the ids first occur, and a group holds the entries of
    its session in the order of the list; no id has two groups. *)
Theorem sessions_are_grouped (logs : list ExtensionLog) :
  group_by_session logs = grouped (first_occurrences (map sid logs)) logs /\
  NoDup (map fst (group_by_session logs)).
Proof. apply group_by_session_grouped. Qed.

End GroupingFacts.

(** ** The report of get_extension_logs *)

Module ReportFacts.
Import Logs Tools ToolsFacts GroupingFacts.

Lemma count_in_one_group (keys : list string) (l : list ExtensionLog) :
  NoDup keys -> (forall x, In x l -> In (sid x) keys) ->
  list_sum (map (fun s => List.length (filter (same_session s) l)) keys)
  = List.length l.
Proof.
  intros Hn. induction l as [| x l IH]; intros Hin.
  - clear Hn Hin. induction keys as [| s keys IHk]; [reflexivity |].
    cbn. exact IHk.
  - cbn [List.length]. rewrite <- IH by (intros y Hy; apply Hin; now right).
    assert (Hx : In (sid x) keys) by (apply Hin; now left).
    clear IH Hin. induction keys as [| s keys IHk]; [destruct Hx |].
    inversion Hn as [| ? ? Hs Hn']; subst. cbn [map list_sum filter].
    unfold same_session at 1.
    destruct (String.eqb_spec (sid x) s) as [He | Hne].
    + subst s. cbn. f_equal. f_equal. f_equal.
      apply map_ext_in. intros s Hs'. unfold same_session at 1.
      destruct (String.eqb_spec (sid x) s); [subst; tauto | reflexivity].
    + cbn [list_sum fold_right]. rewrite <- Nat.add_succ_r. f_equal.
      apply IHk; [exact Hn' |].
      destruct Hx; [congruence | assumption].
Qed.

Section WithWorld.

Variables idx page W : Type.
Variable h : world idx page W.
Variable Date_getTime : string -> option Z.
Variable Date_toISOString : Z -> string.

Local Abbreviation dated := (LogsFacts.dated Date_getTime).
Local Abbreviation log_line :=
  (log_line (idx := idx) (page := page) Date_getTime Date_toISOString).
Local Abbreviation session_lines :=
  (session_lines (idx := idx) (page := page) Date_getTime Date_toISOString).
Local Abbreviation report_logs :=
  (report_logs (idx := idx) (page := page) Date_getTime Date_toISOString).

(** A run that made no call and left the context as it was, with [n]
    lines appended. *)
Definition wrote {A} (o : outcome idx page A W) (w : W) (n : nat) : Prop :=
  final o = w /\ calls o = [] /\ List.length (lines o) = n.

Definition range_error : string := "Invalid time value".

Lemma run_log_line (x : ExtensionLog) (w : W) :
  run h (log_line x) w =
  match Date_getTime (t x) with
  | Some ms =>
      mkOutcome (Ok tt) w
        [Date_toISOString ms ++ " [" ++
         JS.padEnd (JS.toUpperCase (level x)) 5 ++ "] " ++
         JS.padEnd (ctx x) 10 ++ " " ++ JS.join " " (msg x)] []
  | None => mkOutcome (Throw range_error) w [] []
  end.
Proof.
  unfold Tools.log_line. destruct (Date_getTime (t x)); reflexivity.
Qed.

Lemma run_log_lines (logs : list ExtensionLog) (w : W) :
  let o := run h (for_each logs log_line) w in
  (Forall dated logs -> completion o = Ok tt /\ wrote o w (List.length logs)) /\
  (~ Forall dated logs ->
   completion o = Throw range_error /\
   exists n, wrote o w n /\ n < List.length logs).
Proof.
  cbv zeta. induction logs as [| x l IH].
  - cbn. split; [intros _; repeat split | intros H; exfalso; apply H; constructor].
  - cbn [for_each]. rewrite run_bind, run_log_line.
    destruct IH as [IHd IHu].
    destruct (run h (for_each l log_line) w) as [c f ls cs] eqn:E.
    unfold wrote in *. cbn [completion final lines calls] in *.
    destruct (Date_getTime (t x)) as [ms |] eqn:Hx;
      cbn [completion final lines calls].
    + rewrite E. unfold and_then. cbn [completion final lines calls app].
      split.
      * intros Hd. apply Forall_cons_iff in Hd. destruct Hd as [_ Hd].
        destruct (IHd Hd) as [Hc [Hf [Hcl Hl]]].
        cbn [List.length]. repeat split; try assumption. now rewrite Hl.
      * intros Hd.
        assert (Hd' : ~ Forall dated l).
        { intros H. apply Hd. constructor; [| exact H]. now exists ms. }
        destruct (IHu Hd') as [Hc [n [[Hf [Hcl Hl]] Hn]]].
        split; [exact Hc |]. exists (S n). cbn [List.length].
        repeat split; try assumption; [now rewrite Hl | lia].
    + split.
      * intros Hd. apply Forall_inv in Hd. destruct Hd as [ms Hms]. congruence.
      * intros _. split; [reflexivity |]. exists 0. cbn.
        repeat split. lia.
Qed.

Lemma run_session_lines (g : string * list ExtensionLog) (w : W) :
  let o := run h (session_lines g) w in
  (Forall dated (snd g) ->
   completion o = Ok tt /\ wrote o w (3 + List.length (snd g))) /\
  (~ Forall dated (snd g) ->
   completion o = Throw range_error /\ final o = w /\ calls o = []).
Proof.
  cbv zeta. unfold Tools.session_lines.
  repeat (rewrite run_bind; rewrite ?run_append;
          cbn [completion final lines calls]).
  pose proof (run_log_lines (snd g) w) as H. cbv zeta in H.
  destruct H as [Hd Hu].
  destruct (run h (for_each (snd g) log_line) w) as [c f ls cs] eqn:E.
  cbn [completion final lines calls] in *. split.
  - intros HD. destruct (Hd HD) as [Hc [Hf [Hcl Hl]]].
    cbn [final calls lines] in *. subst c f cs.
    rewrite ?run_append. unfold and_then, wrote.
    cbn [completion final lines calls app List.length].
    repeat split. rewrite length_app. cbn. lia.
  - intros HD. destruct (Hu HD) as [Hc [n [[Hf [Hcl Hl]] Hn]]].
    cbn [final calls lines] in *. subst c f cs.
    unfold and_then. cbn [completion final lines calls app]. repeat split.
Qed.

Lemma run_groups (gs : list (string * list ExtensionLog)) (w : W) :
  let o := run h (for_each gs session_lines) w in
  final o = w /\ calls o = [] /\
  (Forall (fun g => Forall dated (snd g)) gs ->
   completion o = Ok tt /\
   List.length (lines o) =
     list_sum (map (fun g => 3 + List.length (snd g)) gs)) /\
  (~ Forall (fun g => Forall dated (snd g)) gs ->
   completion o = Throw range_error).
Proof.
  cbv zeta. induction gs as [| g gs IH].
  - cbn. split; [reflexivity |]. split; [reflexivity |]. split.
    + intros _. split; reflexivity.
    + intros H. exfalso. apply H. constructor.
  - cbn [for_each]. rewrite run_bind.
    pose proof (run_session_lines g w) as Hg. cbv zeta in Hg.
    destruct Hg as [Hd Hu].
    destruct (run h (session_lines g) w) as [c f ls cs] eqn:E.
    cbn [completion final lines calls] in *.
    assert (Hdec : Forall dated (snd g) \/ ~ Forall dated (snd g)).
    { clear. induction (snd g) as [| x l IHl]; [left; constructor |].
      destruct (Date_getTime (t x)) as [ms |] eqn:Hx.
      - destruct IHl as [Hl | Hl].
        + left. constructor; [now exists ms | exact Hl].
        + right. intros H. apply Hl. now inversion H.
      - right. intros H. apply Forall_inv in H. destruct H as [ms H].
        congruence. }
    destruct Hdec as [HD | HD].
    + destruct (Hd HD) as [Hc [Hf [Hcl Hl]]].
      cbn [final calls lines] in *. subst c f cs.
      destruct IH as [IHf [IHc [IHd IHu]]].
      unfold and_then. cbn [completion final lines calls app].
      split; [exact IHf |]. split; [exact IHc |]. split.
      * intros Hall. apply Forall_cons_iff in Hall. destruct Hall as [_ Hall].
        destruct (IHd Hall) as [Hc' Hl']. split; [exact Hc' |].
        rewrite length_app, Hl, Hl'. reflexivity.
      * intros Hall. apply IHu. intros H. apply Hall. now constructor.
    + destruct (Hu HD) as [Hc [Hf Hcl]]. subst c f cs.
      cbn [completion final lines calls].
      split; [reflexivity |]. split; [reflexivity |]. split.
      * intros Hall. apply Forall_inv in Hall. contradiction.
      * intros _. reflexivity.
Qed.

Lemma groups_dated (logs : list ExtensionLog) :
  Forall (fun g => Forall dated (snd g)) (group_by_session logs) <->
  Forall dated logs.
Proof.
  destruct (group_by_session_grouped logs) as [H _]. rewrite H. unfold grouped.
  rewrite Forall_map. cbn [snd]. split.
  - intros Hg. apply Forall_forall. intros x Hx.
    rewrite Forall_forall in Hg.
    assert (Hk : In (sid x) (first_occurrences (map sid logs))).
    { apply first_occurrences_In, in_map, Hx. }
    specialize (Hg _ Hk). rewrite Forall_forall in Hg. apply Hg.
    apply filter_In. split; [exact Hx |]. unfold same_session.
    apply String.eqb_refl.
  - intros Hd. apply Forall_forall. intros s _. apply Forall_forall.
    intros x Hx. apply filter_In in Hx. destruct Hx as [Hx _].
    rewrite Forall_forall in Hd. now apply Hd.
Qed.

Lemma groups_lines (logs : list ExtensionLog) :
  list_sum (map (fun g => 3 + List.length (snd g)) (group_by_session logs)) =
  3 * List.length (first_occurrences (map sid logs)) + List.length logs.
Proof.
  destruct (group_by_session_grouped logs) as [H _]. rewrite H. unfold grouped.
  rewrite map_map. cbn [snd].
  assert (Hc : list_sum
                 (map (fun s => List.length (filter (same_session s) logs))
                      (first_occurrences (map sid logs)))
               = List.length logs).
  { apply count_in_one_group; [apply first_occurrences_NoDup |].
    intros x Hx. apply first_occurrences_In, in_map, Hx. }
  rewrite <- Hc. clear Hc H.
  unfold list_sum.
  induction (first_occurrences (map sid logs)) as [| s ks IH];
    [reflexivity |].
  cbn [map fold_right List.length]. lia.
Qed.

(** The report of a list of entries makes no call.  It starts with the
    line that counts the entries.  Where every entry is dated it
    completes, and has two lines, three per session and one per entry;
    where an entry is not dated it throws the [RangeError] of
    [toISOString]. *)
Lemma run_report_logs (extensionId : string)
  (logs : list ExtensionLog) (w : W) :
  let o := run h (report_logs extensionId logs) w in
  final o = w /\ calls o = [] /\
  (exists rest,
     lines o =
     ("Found " ++ JS.string_of_nat (List.length logs) ++
      " log entries for extension " ++ extensionId) :: "" :: rest) /\
  (Forall dated logs ->
   completion o = Ok tt /\
   List.length (lines o) =
     2 + 3 * List.length (first_occurrences (map sid logs)) +
     List.length logs) /\
  (~ Forall dated logs -> completion o = Throw range_error).
Proof.
  cbv zeta. unfold Tools.report_logs.
  repeat (rewrite run_bind; rewrite ?run_append;
          cbn [completion final lines calls]).
  pose proof (run_groups (group_by_session logs) w) as Hg. cbv zeta in Hg.
  destruct Hg as [Hf [Hc [Hd Hu]]].
  destruct (run h (for_each (group_by_session logs) session_lines) w)
    as [c f ls cs] eqn:E.
  cbn [completion final lines calls] in *. subst f cs.
  unfold and_then. cbn [completion final lines calls app].
  split; [reflexivity |]. split; [reflexivity |].
  split; [eexists; reflexivity |]. split.
  - intros HD. apply groups_dated in HD. destruct (Hd HD) as [Hc' Hl].
    split; [exact Hc' |]. cbn [List.length]. rewrite Hl, groups_lines. lia.
  - intros HD. apply Hu. intros H. apply HD, groups_dated, H.
Qed.

End WithWorld.
End ReportFacts.

(** ** More on the tool handlers *)

Module HandlerFacts.
Import Logs Tools ToolsFacts GroupingFacts ReportFacts.

Section WithWorld.

Variables idx page W : Type.
Variable h : world idx page W.
Variable Date_getTime : string -> option Z.
Variable Date_toISOString : Z -> string.

Local Abbreviation logs_body :=
  (logs_body (idx := idx) (page := page) Date_getTime Date_toISOString).
Local Abbreviation write_logs :=
  (write_logs (idx := idx) (page := page) Date_getTime Date_toISOString).
Local Abbreviation report_logs :=
  (report_logs (idx := idx) (page := page) Date_getTime Date_toISOString).
Local Abbreviation get_extension_logs :=
  (get_extension_logs (idx := idx) (page := page)
     Date_getTime Date_toISOString).

(** *** The calls a handler makes *)

(** A program all of whose calls, whatever their outcome, are among the
    allowed ones, and which makes at most [n] calls. *)
Inductive confined (allowed : event idx page -> Prop) {A}
  : nat -> prog idx page A -> Prop :=
| cf_ret n a : confined allowed n (Ret a)
| cf_raise n e : confined allowed n (Raise e)
| cf_append n l k :
    confined allowed n k -> confined allowed n (AppendResponseLine l k)
| cf_selected n k :
    (forall i, confined allowed n (k i)) ->
    confined allowed n (GetSelectedPageIdx k)
| cf_call n X (c : call idx page X) k :
    (forall r, allowed (event_of c r)) ->
    (forall r, confined allowed n (k r)) ->
    confined allowed (S n) (Call c k).

Lemma confined_more (allowed : event idx page -> Prop) {A} (n m : nat)
  (p : prog idx page A) :
  confined allowed n p -> n <= m -> confined allowed m p.
Proof.
  intros Hp. revert m. induction Hp; intros m Hm; try (constructor; auto).
  destruct m as [| m]; [lia |]. constructor; [assumption |].
  intros r. apply H1. lia.
Qed.

Lemma confined_bind (allowed : event idx page -> Prop) {A B} (n m : nat)
  (p : prog idx page A) (f : A -> prog idx page B) :
  confined allowed n p -> (forall a, confined allowed m (f a)) ->
  confined allowed (n + m) (bind p f).
Proof.
  intros Hp Hf. induction Hp; cbn [bind]; try (constructor; auto).
  eapply confined_more; [apply Hf | lia].
Qed.

Lemma confined_try_catch (allowed : event idx page -> Prop) {A} (n m : nat)
  (p : prog idx page A) (k : string -> prog idx page A) :
  confined allowed n p -> (forall e, confined allowed m (k e)) ->
  confined allowed (n + m) (try_catch p k).
Proof.
  intros Hp Hk. induction Hp; cbn [try_catch]; try (constructor; auto).
  eapply confined_more; [apply Hk | lia].
Qed.

Lemma confined_try_finally (allowed : event idx page -> Prop) {A} (n m : nat)
  (p : prog idx page A) (f : prog idx page unit) :
  confined allowed n p -> confined allowed m f ->
  confined allowed (n + m) (try_finally p f).
Proof.
  intros Hp Hf. induction Hp; cbn [try_finally]; try (constructor; auto).
  - eapply confined_more;
      [apply (confined_bind allowed m 0);
       [exact Hf | intros _; constructor] | lia].
  - eapply confined_more;
      [apply (confined_bind allowed m 0);
       [exact Hf | intros _; constructor] | lia].
Qed.

Lemma confined_for_each (allowed : event idx page -> Prop) {A}
  (xs : list A) (f : A -> prog idx page unit) :
  (forall x, confined allowed 0 (f x)) -> confined allowed 0 (for_each xs f).
Proof.
  intros Hf. induction xs as [| x xs IH]; cbn [for_each]; [constructor |].
  apply (confined_bind allowed 0 0); [apply Hf | intros _; exact IH].
Qed.

Lemma confined_perform (allowed : event idx page -> Prop) {X}
  (c : call idx page X) :
  (forall r, allowed (event_of c r)) -> confined allowed 1 (perform c).
Proof.
  intros H. unfold perform. constructor; [exact H |].
  intros [x | e]; constructor.
Qed.

Lemma confined_append (allowed : event idx page -> Prop) (l : string) :
  confined allowed 0 (append (idx := idx) (page := page) l).
Proof. repeat constructor. Qed.

(** A confined program makes only allowed calls, and no more of them
    than its bound. *)
Lemma confined_run (allowed : event idx page -> Prop) {A} (n : nat)
  (p : prog idx page A) (w : W) :
  confined allowed n p ->
  Forall allowed (calls (run h p w)) /\
  List.length (calls (run h p w)) <= n.
Proof.
  intros Hp. revert w. induction Hp; intros w; cbn [run calls];
    try (split; [constructor | cbn; lia]); auto.
  destruct (answer h c w) as [r w1]. cbn [calls List.length].
  destruct (H1 r w1) as [Hall Hlen]. split; [constructor; auto | lia].
Qed.

(** What [get_extension_logs] may call once page [opened] is open: it
    navigates that page to [chrome-extension://<extensionId>/options.html]
    or [chrome-extension://<extensionId>/], waiting for [networkidle0]
    with a timeout of 10000 ms; it evaluates in that page; it closes the
    page at [newPageIdx] and selects [originalPageIdx]. *)
Definition logs_call (extensionId : string) (opened : result page)
  (newPageIdx originalPageIdx : idx) (ev : event idx page) : Prop :=
  match ev with
  | EvNewPage _ => False
  | EvGoto p url o _ =>
      opened = Ok p /\
      o = {| waitUntil := Some "networkidle0"; timeout := 10000 |} /\
      (url = "chrome-extension://" ++ extensionId ++ "/options.html" \/
       url = "chrome-extension://" ++ extensionId ++ "/")
  | EvEvaluate p _ => opened = Ok p
  | EvClosePage i _ => i = newPageIdx
  | EvSetSelectedPageIdx i _ => i = originalPageIdx
  end.

(** The same for [test_extension_access]: its navigations go to
    [options.html], [manifest.json] or the root of the extension, waiting
    for [networkidle0] with a timeout of 5000 ms, or to the root with the
    timeout of 5000 ms alone. *)
Definition access_call (extensionId : string) (opened : result page)
  (newPageIdx originalPageIdx : idx) (ev : event idx page) : Prop :=
  match ev with
  | EvNewPage _ => False
  | EvGoto p url o _ =>
      opened = Ok p /\
      ((o = {| waitUntil := Some "networkidle0"; timeout := 5000 |} /\
        (url = "chrome-extension://" ++ extensionId ++ "/options.html" \/
         url = "chrome-extension://" ++ extensionId ++ "/manifest.json" \/
         url = "chrome-extension://" ++ extensionId ++ "/")) \/
       (o = {| waitUntil := None; timeout := 5000 |} /\
        url = "chrome-extension://" ++ extensionId ++ "/"))
  | EvEvaluate p _ => opened = Ok p
  | EvClosePage i _ => i = newPageIdx
  | EvSetSelectedPageIdx i _ => i = originalPageIdx
  end.

Lemma confined_write_logs (allowed : event idx page -> Prop)
  (extensionId : string) (logs : EvalResult) :
  confined allowed 0 (write_logs extensionId logs).
Proof.
  destruct logs as [[| log entries] | e]; cbn [Tools.write_logs].
  - apply confined_for_each. intros l. apply confined_append.
  - unfold Tools.report_logs.
    repeat (apply (confined_bind allowed 0 0);
            [apply confined_append | intros _]).
    apply confined_for_each. intros g. unfold session_lines.
    repeat (apply (confined_bind allowed 0 0);
            [apply confined_append | intros _]).
    apply (confined_bind allowed 0 0); [| intros _; apply confined_append].
    apply confined_for_each. intros l. unfold log_line.
    destruct (Date_getTime (t l)); [apply confined_append | constructor].
  - apply confined_append.
Qed.

Lemma confined_logs_body (extensionId : string) (params : LogParams)
  (p : page) (n o : idx) :
  confined (logs_call extensionId (Ok p) n o) 3
    (logs_body extensionId params p).
Proof.
  unfold Tools.logs_body. apply (confined_bind _ 2 1).
  - unfold navigate. apply (confined_try_catch _ 1 1); [| intros _];
      apply confined_perform; intros r; cbn; auto.
  - intros _. unfold Tools.present_logs, evaluate.
    apply (confined_bind _ 1 0); [| apply confined_write_logs].
    apply (confined_bind _ 1 0); [| intros env; constructor].
    apply confined_perform. intros r. reflexivity.
Qed.

Lemma confined_cleanup (allowed : event idx page -> Prop) (n o : idx) :
  (forall r, allowed (EvClosePage n r)) ->
  (forall r, allowed (EvSetSelectedPageIdx o r)) ->
  confined allowed 2 (cleanup n o).
Proof.
  intros Hc Hs. unfold cleanup. apply (confined_bind _ 1 1).
  - apply confined_perform. exact Hc.
  - intros _. apply confined_perform. exact Hs.
Qed.

Lemma confined_access_body (extensionId : string) (p : page) (n o : idx) :
  confined (access_call extensionId (Ok p) n o) 5
    (access_body extensionId p).
Proof.
  unfold access_body.
  assert (Hg : forall url a b,
            url = options_url extensionId \/
            url = manifest_url extensionId \/ url = root_url extensionId ->
            confined (access_call extensionId (Ok p) n o) 1
              (test_goto p url a b)).
  { intros url a b Hu. unfold test_goto.
    apply (confined_try_catch _ 1 0); [| intros _; constructor].
    apply (confined_bind _ 1 0); [| intros _; constructor].
    apply confined_perform. intros r. cbn. auto. }
  apply (confined_bind _ 1 4); [apply Hg; auto | intros r1].
  apply (confined_bind _ 1 3); [apply Hg; auto | intros r2].
  apply (confined_bind _ 1 2); [apply Hg; auto | intros r3].
  apply (confined_bind _ 2 0); [| intros r4; constructor].
  unfold test_storage.
  apply (confined_try_catch _ 2 0); [| intros _; constructor].
  apply (confined_bind _ 1 1).
  - apply confined_perform. intros r. cbn. auto.
  - intros _. unfold evaluate. apply (confined_bind _ 1 0).
    + apply (confined_bind _ 1 0); [| intros env; constructor].
      apply confined_perform. intros r. reflexivity.
    + intros s. destruct (success s); constructor.
Qed.

(** For any context, a handler opens one page and then calls nothing but
    what [logs_call] and [access_call] allow: it navigates only the page
    it opened, only to URLs of the extension and always with a timeout,
    it evaluates only in that page, and it closes and selects only the
    indices it read.  [get_extension_logs] makes at most six calls and
    [test_extension_access] at most eight. *)
Theorem handlers_stay_on_the_extension (extensionId : string)
  (params : LogParams) (w : W) :
  let opened := answer h NewPage w in
  let newPageIdx := selected_of h (snd opened) in
  let originalPageIdx := selected_of h w in
  (exists rest,
     calls (run h (get_extension_logs extensionId params) w) =
       EvNewPage (fst opened) :: rest /\
     Forall (logs_call extensionId (fst opened) newPageIdx originalPageIdx)
            rest /\
     List.length rest <= 5) /\
  (exists rest,
     calls (run h (test_extension_access extensionId) w) =
       EvNewPage (fst opened) :: rest /\
     Forall (access_call extensionId (fst opened) newPageIdx originalPageIdx)
            rest /\
     List.length rest <= 7).
Proof.
  cbv zeta. destruct (answer h NewPage w) as [[p | e] w1] eqn:H0;
    cbn [fst snd].
  - split.
    + pose proof (get_extension_logs_opened idx page W h Date_getTime
                    Date_toISOString extensionId params w w1 p H0) as Hg.
      cbv zeta in Hg. rewrite Hg. cbn [calls]. clear Hg.
      eexists. split; [reflexivity |].
      destruct (confined_run _ 3 _ w1
                  (confined_logs_body extensionId params p
                     (selected_of h w1) (selected_of h w))) as [Hb Hbl].
      match goal with |- context [run h (cleanup ?n ?o) ?w'] =>
        destruct (confined_run
                    (logs_call extensionId (Ok p) n o) 2 _ w'
                    (confined_cleanup _ n o (fun _ => eq_refl)
                       (fun _ => eq_refl))) as [Hc Hcl] end.
      split; [apply Forall_app; split; assumption |].
      rewrite length_app. lia.
    + pose proof (run_test_extension_access idx page W h extensionId w) as Ht.
      cbv zeta in Ht. rewrite Ht. cbn [calls]. clear Ht.
      pose proof (access_protected_opened idx page W h extensionId w w1 p H0)
        as Ha.
      cbv zeta in Ha. rewrite Ha. cbn [calls]. clear Ha.
      eexists. split; [reflexivity |].
      destruct (confined_run _ 5 _ w1
                  (confined_access_body extensionId p
                     (selected_of h w1) (selected_of h w))) as [Hb Hbl].
      match goal with |- context [run h (cleanup ?n ?o) ?w'] =>
        destruct (confined_run
                    (access_call extensionId (Ok p) n o) 2 _ w'
                    (confined_cleanup _ n o (fun _ => eq_refl)
                       (fun _ => eq_refl))) as [Hc Hcl] end.
      split; [apply Forall_app; split; assumption |].
      rewrite length_app. lia.
  - split.
    + rewrite (get_extension_logs_unopened idx page W h Date_getTime
                 Date_toISOString extensionId params w w1 e H0).
      cbn [calls]. exists []. repeat split; [constructor | cbn; lia].
    + pose proof (run_test_extension_access idx page W h extensionId w) as Ht.
      cbv zeta in Ht. rewrite Ht. cbn [calls]. clear Ht.
      rewrite (access_protected_unopened idx page W h extensionId w w1 e H0).
      cbn [calls]. exists []. repeat split; [constructor | cbn; lia].
Qed.

(** When the page cannot be opened, a handler makes no other call: it
    closes no page and selects none, and its response ends with the one
    line that reports the error. *)
Theorem unopened_page_needs_no_cleanup (extensionId : string)
  (params : LogParams) (w w1 : W) (e : string) :
  answer h NewPage w = (Throw e, w1) ->
  run h (get_extension_logs extensionId params) w =
    mkOutcome (Ok tt) w1 [logs_prefix ++ e] [EvNewPage (Throw e)] /\
  run h (test_extension_access extensionId) w =
    mkOutcome (Ok tt) w1
      [("Testing extension: " ++ extensionId)%string; EmptyString;
       (access_prefix ++ e)%string]
      [EvNewPage (Throw e)].
Proof.
  intros H0. split.
  - apply get_extension_logs_unopened, H0.
  - pose proof (run_test_extension_access idx page W h extensionId w) as Ht.
    cbv zeta in Ht. rewrite Ht.
    rewrite (access_protected_unopened idx page W h extensionId w w1 e H0).
    reflexivity.
Qed.

(** *** The results of test_extension_access *)

(** The line of one navigation test. *)
Definition goto_line (r : result unit) (what missing : string) : string :=
  if is_ok r then check_mark ++ " " ++ what else cross_mark ++ " " ++ missing.

(** Whether the storage test passed: the navigation returned, the
    evaluation returned, and [chrome.storage.local.get] did not throw. *)
Definition storage_passed (g : result unit) (ev : result ChromeEnv) : bool :=
  match g, ev with
  | Ok _, Ok env => is_ok (storage_local_get env "test")
  | _, _ => false
  end.

(** The line of the storage test. *)
Definition storage_line (g : result unit) (ev : result ChromeEnv) : string :=
  match g, ev with
  | Ok _, Ok env =>
      match storage_local_get env "test" with
      | Ok _ => check_mark ++ " Storage API accessible"
      | Throw e =>
          cross_mark ++ " Storage API issue: Storage API error: " ++ e
      end
  | _, _ => cross_mark ++ " Could not test storage API"
  end.

Definition count_true (bs : list bool) : nat :=
  List.length (filter (fun b => b) bs).

Lemma goto_line_passed (r : result unit) (what missing : string) :
  JS.startsWith (goto_line r what missing) check_mark = is_ok r.
Proof. destruct r; reflexivity. Qed.

Lemma storage_line_passed (g : result unit) (ev : result ChromeEnv) :
  JS.startsWith (storage_line g ev) check_mark = storage_passed g ev.
Proof.
  destruct g as [[] | e]; [| reflexivity].
  destruct ev as [env | e]; [| reflexivity].
  unfold storage_line, storage_passed.
  destruct (storage_local_get env "test"); reflexivity.
Qed.

Lemma run_test_storage_line (extensionId : string) (p : page) (w : W) :
  let g := answer h (Goto p (root_url extensionId) (only_timeout 5000)) w in
  let ev := answer h (Evaluate p) (snd g) in
  run h (test_storage extensionId p) w =
  mkOutcome (Ok (storage_line (fst g) (fst ev)))
    (if is_ok (fst g) then snd ev else snd g) []
    (EvGoto p (root_url extensionId) (only_timeout 5000) (fst g) ::
     if is_ok (fst g) then [EvEvaluate p (fst ev)] else []).
Proof.
  cbv zeta. unfold test_storage, evaluate.
  rewrite run_try_catch, !run_bind, run_perform.
  destruct (answer h (Goto p (root_url extensionId) (only_timeout 5000)) w)
    as [[[] | e] w1]; cbn [fst snd completion final lines calls is_ok];
    [| reflexivity].
  rewrite ?run_bind, run_perform.
  destruct (answer h (Evaluate p) w1) as [[env | e] w2];
    cbn [fst snd completion final lines calls]; [| reflexivity].
  cbn [run]. unfold and_then, storage_line, storage_script.
  cbn [completion final lines calls].
  destruct (storage_local_get env "test"); reflexivity.
Qed.

Lemma run_access_body (extensionId : string) (p : page) (w : W) :
  let g1 := answer h (Goto p (options_url extensionId) (networkidle 5000)) w in
  let g2 := answer h (Goto p (manifest_url extensionId) (networkidle 5000))
              (snd g1) in
  let g3 := answer h (Goto p (root_url extensionId) (networkidle 5000))
              (snd g2) in
  let g4 := answer h (Goto p (root_url extensionId) (only_timeout 5000))
              (snd g3) in
  let ev := answer h (Evaluate p) (snd g4) in
  run h (access_body extensionId p) w =
  mkOutcome
    (Ok [goto_line (fst g1) "Options page accessible"
           "Options page not accessible";
         goto_line (fst g2) "Manifest accessible" "Manifest not accessible";
         goto_line (fst g3) "Extension root accessible"
           "Extension root not accessible";
         storage_line (fst g4) (fst ev)])
    (if is_ok (fst g4) then snd ev else snd g4) []
    (EvGoto p (options_url extensionId) (networkidle 5000) (fst g1) ::
     EvGoto p (manifest_url extensionId) (networkidle 5000) (fst g2) ::
     EvGoto p (root_url extensionId) (networkidle 5000) (fst g3) ::
     EvGoto p (root_url extensionId) (only_timeout 5000) (fst g4) ::
     if is_ok (fst g4) then [EvEvaluate p (fst ev)] else []).
Proof.
  cbv zeta. unfold access_body.
  rewrite run_bind.
  pose proof (run_test_goto idx page W h p (options_url extensionId)
                "Options page accessible" "Options page not accessible" w) as E1.
  cbv zeta in E1. rewrite E1. clear E1.
  cbn [completion final lines calls]. unfold and_then.
  cbn [completion final lines calls app].
  rewrite run_bind.
  match goal with |- context [run h (test_goto p ?u ?a ?b) ?w'] =>
    pose proof (run_test_goto idx page W h p u a b w') as E2;
    cbv zeta in E2; rewrite E2; clear E2 end.
  cbn [completion final lines calls]. unfold and_then.
  cbn [completion final lines calls app].
  rewrite run_bind.
  match goal with |- context [run h (test_goto p ?u ?a ?b) ?w'] =>
    pose proof (run_test_goto idx page W h p u a b w') as E3;
    cbv zeta in E3; rewrite E3; clear E3 end.
  cbn [completion final lines calls]. unfold and_then.
  cbn [completion final lines calls app].
  rewrite run_bind.
  match goal with |- context [run h (test_storage extensionId p) ?w'] =>
    pose proof (run_test_storage_line extensionId p w') as E4;
    cbv zeta in E4; rewrite E4; clear E4 end.
  unfold and_then. cbn [run completion final lines calls app].
  rewrite app_nil_r. reflexivity.
Qed.

(** When the page opens and the [finally] block returns, the four tests
    are all made, each whatever the earlier ones gave, and the response
    has eleven lines: the number in the summary is the number of tests
    that passed, where a navigation test passes when [goto] returns and
    the storage test when [goto] and [evaluate] return and
    [chrome.storage.local.get] does not throw inside the page.  The last
    line depends on that number only. *)
Theorem summary_counts_the_passed_tests (extensionId : string)
  (w w1 : W) (p : page) :
  answer h NewPage w = (Ok p, w1) ->
  let g1 := answer h (Goto p (options_url extensionId) (networkidle 5000)) w1 in
  let g2 := answer h (Goto p (manifest_url extensionId) (networkidle 5000))
              (snd g1) in
  let g3 := answer h (Goto p (root_url extensionId) (networkidle 5000))
              (snd g2) in
  let g4 := answer h (Goto p (root_url extensionId) (only_timeout 5000))
              (snd g3) in
  let ev := answer h (Evaluate p) (snd g4) in
  let tested := if is_ok (fst g4) then snd ev else snd g4 in
  let fin := run h (cleanup (selected_of h w1) (selected_of h w)) tested in
  completion fin = Ok tt ->
  let passed :=
    count_true [is_ok (fst g1); is_ok (fst g2); is_ok (fst g3);
                storage_passed (fst g4) (fst ev)] in
  lines (run h (test_extension_access extensionId) w) =
    [("Testing extension: " ++ extensionId)%string; EmptyString;
     "Extension Test Results:"; JS.repeat rule_char 30;
     goto_line (fst g1) "Options page accessible"
       "Options page not accessible";
     goto_line (fst g2) "Manifest accessible" "Manifest not accessible";
     goto_line (fst g3) "Extension root accessible"
       "Extension root not accessible";
     storage_line (fst g4) (fst ev);
     EmptyString;
     ("Summary: " ++ JS.string_of_nat passed ++ "/4 tests passed")%string;
     verdict_line passed 4] /\
  passed <= 4 /\
  (passed = 4 <->
   is_ok (fst g1) = true /\ is_ok (fst g2) = true /\ is_ok (fst g3) = true /\
   storage_passed (fst g4) (fst ev) = true).
Proof.
  clear Date_getTime Date_toISOString.
  intros H0 g1 g2 g3 g4 ev tested fin Hfin passed.
  pose proof (run_test_extension_access idx page W h extensionId w) as Ht.
  cbv zeta in Ht. rewrite Ht. clear Ht.
  pose proof (access_protected_opened idx page W h extensionId w w1 p H0) as Ha.
  cbv zeta in Ha. rewrite Ha. clear Ha.
  pose proof (run_access_body extensionId p w1) as Hb.
  cbv zeta in Hb. rewrite Hb. clear Hb.
  cbn [completion final lines calls].
  fold g1 g2 g3 g4 ev. fold tested. fold fin. rewrite Hfin.
  cbn [protect error_line]. unfold display_lines.
  cbn [filter List.length app].
  rewrite !goto_line_passed, storage_line_passed.
  subst passed. unfold count_true. cbn [filter].
  split; [| split].
  - destruct (is_ok (fst g1)), (is_ok (fst g2)), (is_ok (fst g3)),
      (storage_passed (fst g4) (fst ev)); reflexivity.
  - destruct (is_ok (fst g1)), (is_ok (fst g2)), (is_ok (fst g3)),
      (storage_passed (fst g4) (fst ev)); cbn; lia.
  - destruct (is_ok (fst g1)), (is_ok (fst g2)), (is_ok (fst g3)),
      (storage_passed (fst g4) (fst ev)); cbn; intuition (try lia; try congruence).
Qed.

(** When closing the page or restoring the selection throws, the results
    of the four tests are not shown: after its two heading lines the
    response has the one line with that error, although all the tests
    were made. *)
Theorem failed_cleanup_hides_the_results (extensionId : string)
  (w w1 : W) (p : page) (e : string) :
  answer h NewPage w = (Ok p, w1) ->
  let body := run h (access_body extensionId p) w1 in
  let fin := run h (cleanup (selected_of h w1) (selected_of h w)) (final body) in
  completion fin = Throw e ->
  lines (run h (test_extension_access extensionId) w) =
    [("Testing extension: " ++ extensionId)%string; EmptyString;
     (access_prefix ++ e)%string] /\
  List.length (calls body) >= 4.
Proof.
  intros H0 body fin Hfin.
  pose proof (run_test_extension_access idx page W h extensionId w) as Ht.
  cbv zeta in Ht. rewrite Ht. clear Ht.
  pose proof (access_protected_opened idx page W h extensionId w w1 p H0) as Ha.
  cbv zeta in Ha. rewrite Ha. clear Ha.
  fold body. fold fin. rewrite Hfin.
  cbn [protect completion lines error_line app].
  split; [reflexivity |].
  subst body. pose proof (run_access_body extensionId p w1) as Hb.
  cbv zeta in Hb. rewrite Hb. cbn [calls List.length]. lia.
Qed.

(** *** Entries without a valid time *)

Local Abbreviation dated := (LogsFacts.dated Date_getTime).

(** When the script returns entries, the response of
    [get_extension_logs] starts with the line that counts them, and the
    page is closed whatever follows.  If every returned entry has a
    valid time the response is complete: two lines, three per session
    and one per entry.  If one has not, [toISOString] throws while the
    report is written and the response ends with the line of the [catch]
    block, holding that error or the error of the [finally] block.  With
    a [since] that is not zero, the script returns only entries with a
    valid time. *)
Theorem undated_entry_cuts_the_report (extensionId : string)
  (params : LogParams) (w0 w1 w3 : W) (p : page) (env : ChromeEnv)
  (stored : list ExtensionLog) :
  answer h NewPage w0 = (Ok p, w1) ->
  let nav := run h (navigate extensionId p) w1 in
  completion nav = Ok tt ->
  answer h (Evaluate p) (final nav) = (Ok env, w3) ->
  storage_local_get env dev_logs_key = Ok (Some stored) ->
  let shown := select_logs Date_getTime params stored in
  shown <> [] ->
  let fin := run h (cleanup (selected_of h w1) (selected_of h w0)) w3 in
  let o := run h (get_extension_logs extensionId params) w0 in
  calls o =
    (EvNewPage (Ok p) :: calls nav ++ EvEvaluate p (Ok env) :: calls fin)%list /\
  (exists rest,
     lines o =
     ("Found " ++ JS.string_of_nat (List.length shown) ++
      " log entries for extension " ++ extensionId) :: "" :: rest) /\
  (Forall dated shown ->
   List.length (lines o) =
     2 + 3 * List.length (first_occurrences (map sid shown)) +
     List.length shown + List.length (error_line logs_prefix (completion fin))) /\
  (~ Forall dated shown ->
   exists before,
     lines o =
     (before ++
      [(logs_prefix ++
        match completion fin with Ok _ => range_error | Throw e => e end)%string
      ])%list) /\
  (since_given params <> None -> Forall dated shown).
Proof.
  intros H0 nav Hn He Hs shown Hne fin o.
  pose proof (get_extension_logs_evaluated idx page W h Date_getTime
                Date_toISOString extensionId params w0 w1 w3 p env H0 Hn He)
    as Hg.
  cbv zeta in Hg. subst o. rewrite Hg. clear Hg.
  assert (Hv : logs_script Date_getTime params env = Logs shown).
  { unfold logs_script. rewrite Hs. reflexivity. }
  rewrite Hv.
  assert (Hw : write_logs extensionId (Logs shown) =
               report_logs extensionId shown).
  { destruct shown; [congruence | reflexivity]. }
  rewrite Hw. clear Hw.
  destruct (run_report_logs idx page W h Date_getTime Date_toISOString
              extensionId shown w3) as [Hf [Hc [[rest Hl] [Hd Hu]]]].
  destruct (run h (report_logs extensionId shown) w3) as [c f ls cs].
  cbn [completion final lines calls] in *. subst f cs ls. fold nav. fold fin.
  cbn [app].
  split; [reflexivity |]. split; [eexists; reflexivity |]. split; [| split].
  - intros HD. destruct (Hd HD) as [Hc Hlen]. subst c.
    cbn [List.length] in Hlen. cbn [List.length]. rewrite length_app.
    replace (protect (Ok tt) (completion fin)) with (completion fin)
      by (destruct (completion fin) as [[] |]; reflexivity).
    lia.
  - intros HD. rewrite (Hu HD).
    exists (("Found " ++ JS.string_of_nat (List.length shown) ++
             " log entries for extension " ++ extensionId) :: "" :: rest).
    destruct (completion fin) as [[] | e]; reflexivity.
  - intros Hsince. destruct (since_given params) as [s |] eqn:Es;
      [| congruence].
    apply Forall_forall. intros x Hx.
    apply LogsFacts.select_logs_filtered in Hx.
    pose proof (LogsFacts.apply_filters_since Date_getTime params s stored Es)
      as Hall.
    eapply Forall_forall in Hall; [| exact Hx].
    destruct Hall as [ms [Hms _]]. now exists ms.
Qed.

End WithWorld.

(** *** Scenarios *)

Import Session SessionFacts.

Definition crash_message : string := "Target closed".

(** The browser cannot open a page. *)
Definition driver_unopened : driver :=
  {| opening := fun _ => Some crash_message;
     navigation := fun _ _ _ => None;
     evaluation := fun _ => Ok (env_with (Ok None)) |}.

Lemma unopened_page_needs_no_cleanup_witness :
  answer (context driver_unopened) NewPage sample_browser =
    (Throw crash_message,
     {| sess := sess sample_browser; clock := 21 |}) /\
  run (context driver_unopened) sample_logs_handler sample_browser =
    mkOutcome (Ok tt) {| sess := sess sample_browser; clock := 21 |}
      ["Failed to retrieve extension logs: Target closed"]
      [EvNewPage (Throw crash_message)].
Proof.
  split; [reflexivity |].
  destruct (unopened_page_needs_no_cleanup (option nat) nat browser
              (context driver_unopened) IsoDate.getTime IsoDate.toISOString
              sample_id LogsFacts.background_params sample_browser
              {| sess := sess sample_browser; clock := 21 |}
              crash_message eq_refl) as [H _].
  exact H.
Defined.

(** With [driver_recovering] the options page times out and the other
    three tests pass. *)
Lemma summary_counts_the_passed_tests_witness :
  answer (context driver_recovering) NewPage sample_browser
    = (Ok 20, opened_at 21) /\
  completion (run (context driver_recovering)
                (cleanup (Some 2) (Some 1)) (opened_at 26)) = Ok tt /\
  lines (run (context driver_recovering) (test_extension_access sample_id)
           sample_browser) =
  [("Testing extension: " ++ sample_id)%string; EmptyString;
   "Extension Test Results:"; JS.repeat rule_char 30;
   (cross_mark ++ " Options page not accessible")%string;
   (check_mark ++ " Manifest accessible")%string;
   (check_mark ++ " Extension root accessible")%string;
   (check_mark ++ " Storage API accessible")%string;
   EmptyString;
   "Summary: 3/4 tests passed";
   verdict_line 3 4].
Proof.
  split; [reflexivity |]. split; [reflexivity |].
  destruct (summary_counts_the_passed_tests (option nat) nat browser
              (context driver_recovering) sample_id sample_browser
              (opened_at 21) 20 eq_refl eq_refl) as [H _].
  rewrite H. reflexivity.
Defined.

(** No page was open before the call: the temporary page is closed, and
    then there is no selection to restore. *)
Lemma failed_cleanup_hides_the_results_witness :
  answer (context driver_without_logs) NewPage empty_browser
    = (Ok 0, {| sess := newPage 0 (sess empty_browser); clock := 1 |}) /\
  lines (run (context driver_without_logs) (test_extension_access sample_id)
           empty_browser) =
  [("Testing extension: " ++ sample_id)%string; EmptyString;
   "Failed to test extension: IndexOutOfRangeError"].
Proof.
  split; [reflexivity |].
  destruct (failed_cleanup_hides_the_results (option nat) nat browser
              (context driver_without_logs) sample_id empty_browser
              {| sess := newPage 0 (sess empty_browser); clock := 1 |} 0
              index_error eq_refl eq_refl) as [H _].
  rewrite H. reflexivity.
Defined.

(** An entry whose time is not a date, stored after a dated one. *)
Definition undated_sample : list ExtensionLog :=
  [LogsFacts.entry "popup" "log" "s1" "2025-01-01T00:00:01.000Z";
   LogsFacts.entry "popup" "log" "s1" "yesterday"].

Definition driver_undated : driver :=
  {| opening := fun _ => None;
     navigation := fun _ _ _ => None;
     evaluation := fun _ => Ok (env_with (Ok (Some undated_sample))) |}.

Definition all_params : LogParams :=
  {| since := None; sessionId := None; maxEntries := 100%Q;
     contextType := "all"; logLevel := "all" |}.

Lemma undated_entry_cuts_the_report_witness :
  answer (context driver_undated) NewPage sample_browser
    = (Ok 20, opened_at 21) /\
  completion (run (context driver_undated) (navigate sample_id 20)
                (opened_at 21)) = Ok tt /\
  answer (context driver_undated) (Evaluate 20) (opened_at 22)
    = (Ok (env_with (Ok (Some undated_sample))), opened_at 23) /\
  select_logs IsoDate.getTime all_params undated_sample = undated_sample /\
  ~ Forall (LogsFacts.dated IsoDate.getTime) undated_sample /\
  exists before,
    lines (run (context driver_undated)
             (get_extension_logs IsoDate.getTime IsoDate.toISOString
                sample_id all_params) sample_browser) =
    (before ++ ["Failed to retrieve extension logs: Invalid time value"])%list.
Proof.
  split; [reflexivity |]. split; [reflexivity |]. split; [reflexivity |].
  split; [reflexivity |].
  assert (Hu : ~ Forall (LogsFacts.dated IsoDate.getTime)
                 (select_logs IsoDate.getTime all_params undated_sample)).
  { intros H. apply Forall_inv_tail, Forall_inv in H.
    destruct H as [ms H]. discriminate H. }
  split; [exact Hu |].
  destruct (undated_entry_cuts_the_report (option nat) nat browser
              (context driver_undated) IsoDate.getTime IsoDate.toISOString
              sample_id all_params sample_browser (opened_at 21) (opened_at 23)
              20 (env_with (Ok (Some undated_sample))) undated_sample
              eq_refl eq_refl eq_refl eq_refl ltac:(discriminate))
    as [_ [_ [_ [H _]]]].
  destruct (H Hu) as [before Hb]. exists before. exact Hb.
Defined.

(** The response of that call: the heading of the session and the dated
    entry are written before the error. *)
Example undated_response :
  lines (run (context driver_undated)
           (get_extension_logs IsoDate.getTime IsoDate.toISOString
              sample_id all_params) sample_browser) =
  ["Found 2 log entries for extension abcdefghijklmnopabcdefghijklmnop";
   "";
   "Session: s1";
   JS.repeat rule_char 50;
   "2025-01-01T00:00:01.000Z [LOG  ] popup      message";
   "Failed to retrieve extension logs: Invalid time value"].
Proof. reflexivity. Qed.

End HandlerFacts.
